(** * MiniFlow engine logic: condition evaluation, gateway resolution and
      task assignment

    A shallow embedding of the engine logic of
    [scripts/test_engine_logic.py]: [evaluate_condition],
    [evaluate_gateway], [direct_assignment], [priority_assignment] and
    [RoundRobinAssignment.assign].

    Python values are the JSON scalars the scripts work with; a Python
    [dict] with string keys is a [gmap string PyVal]; a subscript [d[k]]
    on a missing key raises [KeyError] and an ordering comparison between
    unordered types raises [TypeError], both carried by the [result] monad
    below. *)

From Stdlib Require Import ZArith Lia Ascii.
From stdpp Require Import base option list strings gmap.

Local Open Scope string_scope.
Local Open Scope Z_scope.

(** ** Python values *)

(** The scalars that occur as dictionary values in the scripts: [None],
    booleans, integers and strings.  Floats and nested containers are not
    part of the model. *)
Inductive PyVal : Type :=
  | PNone
  | PBool (b : bool)
  | PInt (z : Z)
  | PStr (s : string).

#[global] Instance PyVal_eq_dec : EqDecision PyVal.
Proof. solve_decision. Defined.

#[global] Instance PyVal_inhabited : Inhabited PyVal := populate PNone.

(** [bool(v)]: Python truthiness. *)
Definition truthy (v : PyVal) : bool :=
  match v with
  | PNone => false
  | PBool b => b
  | PInt z => negb (z =? 0)
  | PStr s => negb (String.eqb s "")
  end.

(** A Python [bool] is an [int]: [True] is [1], [False] is [0]. *)
Definition as_int (v : PyVal) : option Z :=
  match v with
  | PBool b => Some (if b then 1 else 0)
  | PInt z => Some z
  | _ => None
  end.

(** [a == b] on scalars: numbers compare by value across [bool] and [int],
    strings with strings, [None] with [None]; anything else is unequal. *)
Definition py_eq (a b : PyVal) : bool :=
  match as_int a, as_int b with
  | Some x, Some y => x =? y
  | _, _ =>
      match a, b with
      | PNone, PNone => true
      | PStr s, PStr t => String.eqb s t
      | _, _ => false
      end
  end.

(** ** Exceptions *)

Inductive exn : Type :=
  | KeyError (key : string)
  | TypeError
  | IndexError.

Inductive result (A : Type) : Type :=
  | Return (a : A)
  | Raise (e : exn).
Arguments Return {A} a.
Arguments Raise {A} e.

#[global] Instance result_ret : MRet result := @Return.

#[global] Instance result_bind : MBind result := fun A B k m =>
  match m with
  | Return a => k a
  | Raise e => Raise e
  end.

(** [[f(x) for x in xs]]: elements are evaluated left to right and the
    first exception wins. *)
Fixpoint rmap {A B : Type} (f : A → result B) (xs : list A) : result (list B) :=
  match xs with
  | [] => Return []
  | x :: xs' => y ← f x; ys ← rmap f xs'; Return (y :: ys)
  end.

(** [[x for x in xs if p(x)]]. *)
Fixpoint rfilter {A : Type} (p : A → result bool) (xs : list A) : result (list A) :=
  match xs with
  | [] => Return []
  | x :: xs' =>
      b ← p x; ys ← rfilter p xs'; Return (if (b : bool) then x :: ys else ys)
  end.

(** ** Dictionaries *)

Abbreviation dict := (gmap string PyVal).

(** [d[k]] *)
Definition getitem (d : dict) (k : string) : result PyVal :=
  match d !! k with
  | Some v => Return v
  | None => Raise (KeyError k)
  end.

(** [d.get(k, default)] *)
Definition get (d : dict) (k : string) (default : PyVal) : PyVal :=
  match d !! k with
  | Some v => v
  | None => default
  end.

(** ** Condition evaluator *)

(** [evaluate_condition(condition, vars)].  [dict.get] and [==] on scalars
    never raise, so the function is total and returns a [bool]. *)
Definition evaluate_condition (condition : PyVal) (vars : dict) : bool :=
  if negb (truthy condition) then true
  else if py_eq condition (PStr "approved == true")
          || py_eq condition (PStr "${approved} == true")
  then py_eq (get vars "approved" (PBool false)) (PBool true)
  else if py_eq condition (PStr "approved == false")
          || py_eq condition (PStr "${approved} == false")
  then py_eq (get vars "approved" (PBool true)) (PBool false)
  else true.

(** The [variables] of [test_condition_evaluation_logic]. *)
Definition test_variables : dict :=
  <["approved" := PBool true]>
    (<["amount" := PInt 1000]> (<["status" := PStr "pending"]> ∅)).

(** A context that says nothing about ["approved"]. *)
Definition amount_only : dict := <["amount" := PInt 1000]> ∅.

(** ** Gateway resolver *)

(** A node object: its scalar entries (["id"], ["type"], ...) and its
    ["props"] entry, the one nested dictionary of a node. *)
Record Node : Type := mkNode {
  node_items : dict;
  node_props : option dict
}.

(** [gateway["props"]] *)
Definition getprops (n : Node) : result dict :=
  match node_props n with
  | Some props => Return props
  | None => Raise (KeyError "props")
  end.

(** The test that [evaluate_gateway] applies to a flow's condition, written
    inline in both its exclusive and its inclusive branch:
    [not condition or (condition == "${approved} == true" and
    variables.get("approved"))]. *)
Definition inline_condition_check (condition : PyVal) (variables : dict) : bool :=
  negb (truthy condition)
  || (py_eq condition (PStr "${approved} == true")
      && truthy (get variables "approved" PNone)).

(** The [for] loop of the exclusive branch: the first flow that passes the
    check decides, later flows are not looked at. *)
Fixpoint exclusive_loop (outgoing_flows : list dict) (variables : dict)
  : result (list PyVal) :=
  match outgoing_flows with
  | [] => Return []
  | flow :: rest =>
      let condition := get flow "condition" (PStr "") in
      if inline_condition_check condition variables
      then t ← getitem flow "to"; Return [t]
      else exclusive_loop rest variables
  end.

(** The [for] loop of the inclusive branch, appending to [result]. *)
Fixpoint inclusive_loop (outgoing_flows : list dict) (variables : dict)
  : result (list PyVal) :=
  match outgoing_flows with
  | [] => Return []
  | flow :: rest =>
      let condition := get flow "condition" (PStr "") in
      if inline_condition_check condition variables
      then t ← getitem flow "to";
           ts ← inclusive_loop rest variables;
           Return (t :: ts)
      else inclusive_loop rest variables
  end.

Definition evaluate_gateway (gateway : Node) (flows : list dict)
    (variables : dict) : result (list PyVal) :=
  props ← getprops gateway;
  let gateway_type := get props "gatewayType" (PStr "exclusive") in
  outgoing_flows ←
    rfilter (fun f => a ← getitem f "from";
                      b ← getitem (node_items gateway) "id";
                      Return (py_eq a b)) flows;
  if py_eq gateway_type (PStr "exclusive") then
    exclusive_loop outgoing_flows variables
  else if py_eq gateway_type (PStr "parallel") then
    rmap (fun f => getitem f "to") outgoing_flows
  else if py_eq gateway_type (PStr "inclusive") then
    inclusive_loop outgoing_flows variables
  else Return [].

(** The data of [test_gateway_evaluation_logic]. *)
Definition mk_flow (src tgt condition : string) : dict :=
  <["from" := PStr src]>
    (<["to" := PStr tgt]> (<["condition" := PStr condition]> ∅)).

Definition test_flows : list dict :=
  [ mk_flow "gateway1" "end_success" "${approved} == true";
    mk_flow "gateway1" "end_reject" "${approved} == false";
    mk_flow "gateway1" "end_default" "" ].

Definition test_gateway (gateway_type : string) : Node :=
  mkNode (<["id" := PStr "gateway1"]> (<["type" := PStr "gateway"]> ∅))
         (Some (<["gatewayType" := PStr gateway_type]> ∅)).

Definition approved_is (b : bool) : dict := <["approved" := PBool b]> ∅.

(** ** Task assignment strategies *)

(** [users[0] if users else None] *)
Definition direct_assignment (task : dict) (users : list dict) : option dict :=
  match users with
  | [] => None
  | u :: _ => Some u
  end.

(** [{"admin": 100, "manager": 80, "user": 60}.get(role, 40)]: only the
    three strings are keys of the table. *)
Definition role_weight (role : PyVal) : Z :=
  match role with
  | PStr r =>
      if String.eqb r "admin" then 100
      else if String.eqb r "manager" then 80
      else if String.eqb r "user" then 60
      else 40
  | _ => 40
  end.

(** [v >= n] for an integer literal [n]: defined on numbers, a [TypeError]
    on [None] and on strings. *)
Definition py_ge_int (v : PyVal) (n : Z) : result bool :=
  match as_int v with
  | Some x => Return (n <=? x)
  | None => Raise TypeError
  end.

Definition calculate_score (user task : dict) : result Z :=
  role ← getitem user "role";
  let score := role_weight role in
  priority ← getitem task "priority";
  high ← py_ge_int priority 80;
  Return (if (high : bool) then score + 30 else score).

(** [list.sort(key=lambda x: x[1], reverse=True)]: a stable sort, highest
    key first; pairs with equal keys keep the order they had.  Stable sorts
    agree on their result, so insertion stands for the library's sort. *)
Fixpoint insert_desc {A : Type} (x : A * Z) (l : list (A * Z)) : list (A * Z) :=
  match l with
  | [] => [x]
  | y :: l' => if x.2 <? y.2 then y :: insert_desc x l' else x :: l
  end.

Definition sort_desc {A : Type} (l : list (A * Z)) : list (A * Z) :=
  foldr insert_desc [] l.

Definition priority_assignment (task : dict) (users : list dict)
  : result (option dict) :=
  match users with
  | [] => Return None
  | _ :: _ =>
      scored_users ← rmap (fun user => s ← calculate_score user task;
                                       Return (user, s)) users;
      match sort_desc scored_users with
      | [] => Raise IndexError
      | (user, _) :: _ => Return (Some user)
      end
  end.

(** [xs[i]] for a Python [int] index: negative indices count from the end. *)
Definition py_index {A : Type} (xs : list A) (i : Z) : result A :=
  let n := Z.of_nat (length xs) in
  let j := if i <? 0 then i + n else i in
  if (0 <=? j) && (j <? n) then
    match xs !! Z.to_nat j with
    | Some x => Return x
    | None => Raise IndexError
    end
  else Raise IndexError.

Module RoundRobinAssignment.

(** The object's only attribute, [self.last_index]: node key to the index
    handed out last. *)
Abbreviation state := (gmap string Z).

(** [__init__] *)
Definition init : state := ∅.

(** [assign(task, users, node_key)]: the result and the attribute after
    the call. *)
Definition assign (task : dict) (users : list dict) (node_key : string)
    (last_index : state) : result (option dict) * state :=
  match users with
  | [] => (Return None, last_index)
  | _ :: _ =>
      let current_index := default (-1) (last_index !! node_key) in
      let next_index := (current_index + 1) `mod` Z.of_nat (length users) in
      let last_index' := <[node_key := next_index]> last_index in
      (u ← py_index users next_index; Return (Some u), last_index')
  end.

(** [n] calls in a row on the same object, with the same arguments. *)
Fixpoint assign_n (n : nat) (task : dict) (users : list dict)
    (node_key : string) (last_index : state)
  : list (result (option dict)) * state :=
  match n with
  | O => ([], last_index)
  | S n' =>
      let '(r, st) := assign task users node_key last_index in
      let '(rs, st') := assign_n n' task users node_key st in
      (r :: rs, st')
  end.

End RoundRobinAssignment.

(** The data of [test_task_assignment_logic]. *)
Definition mk_user (id : Z) (username role : string) : dict :=
  <["id" := PInt id]>
    (<["username" := PStr username]>
       (<["role" := PStr role]> (<["status" := PStr "active"]> ∅))).

Definition test_users : list dict :=
  [ mk_user 1 "user1" "user"; mk_user 2 "user2" "manager";
    mk_user 3 "admin1" "admin" ].

Definition test_task : dict :=
  <["id" := PInt 1]>
    (<["name" := PStr "task"]>
       (<["priority" := PInt 80]> (<["status" := PStr "created"]> ∅))).

(** The ["username"] of the user an assignment returned. *)
Definition assignee (r : result (option dict)) : option PyVal :=
  match r with
  | Return (Some u) => u !! "username"
  | _ => None
  end.

(** ** The comparison grammar of the specification *)

(** The expressions the specification calls recognised: a variable
    reference, bare ([name]) or interpolated ([${name}]), one of the
    operators [==] and [!=], and a literal, separated by single spaces.
    This recogniser follows the specification's wording; the code has no
    parser and is compared with it below. *)
Module Grammar.

Definition is_name_char (a : Ascii.ascii) : bool :=
  let n := Z.of_nat (Ascii.nat_of_ascii a) in
  ((48 <=? n) && (n <=? 57)) || ((65 <=? n) && (n <=? 90))
  || ((97 <=? n) && (n <=? 122)) || (n =? 95).

Fixpoint all_name_chars (s : string) : bool :=
  match s with
  | EmptyString => true
  | String a s' => is_name_char a && all_name_chars s'
  end.

Definition is_name (s : string) : bool :=
  negb (String.eqb s "") && all_name_chars s.

(** [s] without its last character, when that character is [}]. *)
Fixpoint strip_brace (s : string) : option string :=
  match s with
  | EmptyString => None
  | String a EmptyString => if Ascii.eqb a "}"%char then Some "" else None
  | String a s' => String a <$> strip_brace s'
  end.

Definition is_reference (s : string) : bool :=
  is_name s
  || match s with
     | String "$"%char (String "{"%char s') =>
         match strip_brace s' with
         | Some name => is_name name
         | None => false
         end
     | _ => false
     end.

(** The text before the first space and the text after it. *)
Fixpoint cut (s : string) : string * option string :=
  match s with
  | EmptyString => ("", None)
  | String a s' =>
      if Ascii.eqb a " "%char then ("", Some s')
      else let '(w, r) := cut s' in (String a w, r)
  end.

Definition is_operator (s : string) : bool :=
  String.eqb s "==" || String.eqb s "!=".

Definition is_comparison (e : string) : bool :=
  match cut e with
  | (ref, Some rest) =>
      match cut rest with
      | (op, Some lit) =>
          is_reference ref && is_operator op && negb (String.eqb lit "")
      | _ => false
      end
  | _ => false
  end.

End Grammar.

(** ** The resolver of the specification *)

(** What the specification asks of the resolver, with eligibility decided
    by the condition evaluator: the first eligible flow's target for an
    exclusive gateway, every eligible flow's target for an inclusive one.
    [flows] are the gateway's outgoing flows, each with its target. *)
Definition flow_condition (flow : dict) : PyVal := get flow "condition" (PStr "").

Definition flow_target (flow : dict) : PyVal := get flow "to" PNone.

Fixpoint spec_exclusive (flows : list dict) (variables : dict) : list PyVal :=
  match flows with
  | [] => []
  | flow :: rest =>
      if evaluate_condition (flow_condition flow) variables
      then [flow_target flow]
      else spec_exclusive rest variables
  end.

Definition spec_inclusive (flows : list dict) (variables : dict) : list PyVal :=
  map flow_target
    (List.filter (fun flow => evaluate_condition (flow_condition flow) variables)
       flows).

(** A flow leaves the gateway when its ["from"] equals the gateway's id. *)
Definition is_outgoing (id : PyVal) (flow : dict) : bool :=
  match flow !! "from" with
  | Some a => py_eq a id
  | None => false
  end.

(** [k in d] *)
Definition has_key (d : dict) (k : string) : bool :=
  match d !! k with
  | Some _ => true
  | None => false
  end.

(** The flows on which the resolver raises no [KeyError]: each names its
    source, and each flow leaving the gateway names its target. *)
Definition well_formed (id : PyVal) (flows : list dict) : bool :=
  forallb (fun f => has_key f "from"
                    && implb (is_outgoing id f) (has_key f "to")) flows.

(** The four expressions the evaluator tells apart; any other string is
    answered with [True]. *)
Definition recognised : list string :=
  ["approved == true"; "${approved} == true";
   "approved == false"; "${approved} == false"].

(** ** Reference definitions for the assignment strategies *)

(** The score of the specification: the role's weight, plus 30 for a task
    of priority 80 or more. *)
Definition spec_score (priority : Z) (role : PyVal) : Z :=
  role_weight role + (if 80 <=? priority then 30 else 0).

Definition user_role (user : dict) : PyVal := get user "role" PNone.

(** The first element of a list among those of maximal key. *)
Fixpoint first_max {A : Type} (key : A → Z) (l : list A) : option A :=
  match l with
  | [] => None
  | x :: l' =>
      match first_max key l' with
      | None => Some x
      | Some y => if key x <? key y then Some y else Some x
      end
  end.

Definition with_key {A : Type} (key : A → Z) (x : A) : A * Z := (x, key x).

(** Whether a call returned the user [u]. *)
Definition returned (u : dict) (r : result (option dict)) : bool :=
  match r with
  | Return (Some v) => bool_decide (v = u)
  | _ => false
  end.

(** The index handed out by call [k], counting from 1, when the index
    stored before the first call was [c] and there are [m] candidates. *)
Definition rotation (c m : Z) (k : nat) : Z := (c + Z.of_nat k) `mod` m.

(** Among the calls [1 .. n], those that hand out index [i] when the
    index before the first call was [c] and there are [m] candidates. *)
Definition hits (c m i : Z) (n : nat) : Z :=
  Z.of_nat (length (List.filter (fun k => rotation c m k =? i) (seq 1 n))).

(** The scoring rule in the specification's words: the weights
    [{admin: 100, manager: 80, user: 60}], 40 for any other role, and 30
    more for a task of priority 80 or above.  The code's [role_weight] and
    [calculate_score] are compared with it below. *)
Definition claimed_role_weights : gmap string Z :=
  <["admin" := 100]> (<["manager" := 80]> (<["user" := 60]> ∅)).

Definition claimed_role_weight (role : PyVal) : Z :=
  match role with
  | PStr r => default 40 (claimed_role_weights !! r)
  | _ => 40
  end.

Definition claimed_score (priority : Z) (role : PyVal) : Z :=
  claimed_role_weight role + (if 80 <=? priority then 30 else 0).

(** ** Load-balancing assignment *)

(** The load table written inside [load_balancing_assignment]: user id to
    number of open tasks. *)
Definition user_loads : gmap Z Z := <[1 := 3]> (<[2 := 1]> (<[3 := 2]> ∅)).

(** [user_loads.get(id, 0)]: the keys are integers, so a [bool] or [int] of
    equal value finds the entry; a string or [None] never does. *)
Definition load_of (id : PyVal) : Z :=
  match as_int id with
  | Some z => default 0 (user_loads !! z)
  | None => 0
  end.

(** The scan of [min(users, key=...)] over the remaining items: the
    running minimum gives way only to a strictly smaller key. *)
Fixpoint min_loop {A : Type} (best : A * Z) (rest : list (A * Z)) : A :=
  match rest with
  | [] => best.1
  | x :: rest' =>
      if x.2 <? best.2 then min_loop x rest' else min_loop best rest'
  end.

Definition load_key (user : dict) : result (dict * Z) :=
  id ← getitem user "id"; Return (user, load_of id).

Definition load_balancing_assignment (task : dict) (users : list dict)
  : result (option dict) :=
  match users with
  | [] => Return None
  | first :: others =>
      best ← load_key first;
      rest ← rmap load_key others;
      Return (Some (min_loop best rest))
  end.

(** The load that [load_balancing_assignment] compares for a candidate. *)
Definition user_load (user : dict) : Z := load_of (get user "id" PNone).

(** ** Execution path tracking *)

(** An entry of the execution path: the node and the clock reading taken
    when it was entered.  The clock is an input: [now] is what
    [time.time()] answered. *)
Definition add_to_path {T : Type} (now : T) (node_id : PyVal)
    (execution_path : list (PyVal * T)) : list (PyVal * T) :=
  execution_path ++ [(node_id, now)].

(** [for node in execution_sequence: add_to_path(node)], each node paired
    with the clock reading of its call. *)
Fixpoint track_sequence {T : Type} (execution_sequence : list (PyVal * T))
    (execution_path : list (PyVal * T)) : list (PyVal * T) :=
  match execution_sequence with
  | [] => execution_path
  | (node_id, now) :: rest =>
      track_sequence rest (add_to_path now node_id execution_path)
  end.

(** ** The test runner *)

Record TestResult : Type := mkTestResult {
  result_name : string;
  result_passed : bool;
  result_details : string
}.

(** [log_test]: the entry appended to [self.test_results]; what is printed
    is left out. *)
Definition log_test (test_name : string) (passed : bool) (details : string)
    (test_results : list TestResult) : list TestResult :=
  test_results ++ [mkTestResult test_name passed details].

(** A test method: it returns a verdict or raises, and leaves the entries it
    logged in [self.test_results]. *)
Definition TestMethod : Type :=
  list TestResult → result bool * list TestResult.

(** The loop of [run_all_tests]: a test counts when it returns [True]; a
    test that raises is caught and does not count. *)
Fixpoint run_tests (tests : list (string * TestMethod)) (passed_count : nat)
    (test_results : list TestResult) : nat * list TestResult :=
  match tests with
  | [] => (passed_count, test_results)
  | (_, test_func) :: rest =>
      match test_func test_results with
      | (Return true, test_results') =>
          run_tests rest (S passed_count) test_results'
      | (_, test_results') => run_tests rest passed_count test_results'
      end
  end.

(** [run_all_tests]: whether [passed_count == len(tests)], and the log. *)
Definition run_all_tests (tests : list (string * TestMethod))
    (test_results : list TestResult) : bool * list TestResult :=
  let '(passed_count, test_results') := run_tests tests 0 test_results in
  (Nat.eqb passed_count (length tests), test_results').

(** The verdicts of the test methods, each run on the log its predecessors
    left. *)
Fixpoint verdicts (tests : list (string * TestMethod))
    (test_results : list TestResult) : list (result bool) :=
  match tests with
  | [] => []
  | (_, test_func) :: rest =>
      let '(v, test_results') := test_func test_results in
      v :: verdicts rest test_results'
  end.

(** The log after every test method has run in turn, whatever the verdicts
    were. *)
Definition final_log (tests : list (string * TestMethod))
    (test_results : list TestResult) : list TestResult :=
  foldl (fun log test => (test.2 log).2) test_results tests.

(** A test passed when it returned [True]. *)
Definition passed_verdict (v : result bool) : bool :=
  match v with
  | Return true => true
  | _ => false
  end.

(** [passed_tests] of the summary. *)
Definition passed_tests (test_results : list TestResult) : nat :=
  length (List.filter result_passed test_results).

(** ** Response assertions of [tests/api/lib/base_test.py] *)

Module BaseAPITest.

(** What is handed to an assertion: a dictionary or some other value. *)
Inductive response : Type :=
| RDict (d : dict)
| ROther (v : PyVal).

(** The [assert] statements, one constructor for each. *)
Inductive failure : Type :=
| NotADict
| MissingField (field : string)
| NoErrorOrCode
| WrongCode (expected actual : PyVal).

Inductive outcome : Type :=
| Passed
| AssertionError (f : failure).

(** The loop over [expected_fields]: the first field that is not a key
    fails the assertion. *)
Fixpoint check_fields (d : dict) (expected_fields : list string) : outcome :=
  match expected_fields with
  | [] => Passed
  | field :: rest =>
      if has_key d field then check_fields d rest
      else AssertionError (MissingField field)
  end.

(** [expected_fields] is [None] by default; [None] and the empty list
    are both falsy. *)
Definition assert_valid_response (r : response)
    (expected_fields : option (list string)) : outcome :=
  match r with
  | ROther _ => AssertionError NotADict
  | RDict d =>
      match expected_fields with
      | None => Passed
      | Some fields => check_fields d fields
      end
  end.

(** [a or b] *)
Definition py_or (a b : PyVal) : PyVal := if truthy a then a else b.

Definition assert_error_response (r : response) (expected_error_code : PyVal)
  : outcome :=
  match r with
  | ROther _ => AssertionError NotADict
  | RDict d =>
      if has_key d "error" || has_key d "code" then
        if truthy expected_error_code then
          let error_code := py_or (get d "code" PNone) (get d "error" PNone) in
          if py_eq error_code expected_error_code then Passed
          else AssertionError (WrongCode expected_error_code error_code)
        else Passed
      else AssertionError NoErrorOrCode
  end.

End BaseAPITest.

(** * Properties *)

(** ** The scripts' own test cases *)

Example evaluate_condition_test_cases :
  map (fun c => evaluate_condition (PStr c) test_variables)
      ["approved == true"; "approved == false"; "${approved} == true";
       "${approved} == false"; ""; "unknown_condition"]
  = [true; false; true; false; true; true].
Proof. vm_compute. reflexivity. Qed.

Example evaluate_gateway_test_exclusive :
  evaluate_gateway (test_gateway "exclusive") test_flows (approved_is true)
  = Return [PStr "end_success"].
Proof. vm_compute. reflexivity. Qed.

Example evaluate_gateway_test_parallel :
  evaluate_gateway (test_gateway "parallel") test_flows (approved_is true)
  = Return [PStr "end_success"; PStr "end_reject"; PStr "end_default"].
Proof. vm_compute. reflexivity. Qed.

Example evaluate_gateway_test_inclusive :
  evaluate_gateway (test_gateway "inclusive") test_flows (approved_is true)
  = Return [PStr "end_success"; PStr "end_default"].
Proof. vm_compute. reflexivity. Qed.

Example priority_assignment_test :
  assignee (priority_assignment test_task test_users) = Some (PStr "admin1").
Proof. vm_compute. reflexivity. Qed.

Example direct_assignment_test :
  (direct_assignment test_task test_users ≫= lookup "username")
  = Some (PStr "user1").
Proof. vm_compute. reflexivity. Qed.

Example load_balancing_assignment_test :
  assignee (load_balancing_assignment test_task test_users)
  = Some (PStr "user2").
Proof. vm_compute. reflexivity. Qed.

Example round_robin_test :
  map assignee
    (RoundRobinAssignment.assign_n 4 test_task test_users "default"
       RoundRobinAssignment.init).1
  = map (fun n => Some (PStr n)) ["user1"; "user2"; "admin1"; "user1"].
Proof. vm_compute. reflexivity. Qed.

Example grammar_examples :
  map Grammar.is_comparison
    ["approved == true"; "${approved} == false"; "amount != 1000";
     "${status} == pending"; "unknown_condition"; ""; "approved"; "== true";
     "${} == true"; "a b == c"]
  = [true; true; true; true; false; false; false; false; false; false].
Proof. vm_compute. reflexivity. Qed.



(** ** Values *)

Lemma py_eq_PStr (v : PyVal) (s : string) :
  py_eq v (PStr s) = true ↔ v = PStr s.
Proof.
  destruct v as [ | b | z | t]; unfold py_eq; simpl;
    try (split; [discriminate | congruence]).
  rewrite String.eqb_eq. split; congruence.
Qed.

Lemma py_eq_PStr_false (v : PyVal) (s : string) :
  py_eq v (PStr s) = false ↔ v ≠ PStr s.
Proof.
  rewrite <- py_eq_PStr. destruct (py_eq v (PStr s)); split; congruence.
Qed.

Lemma get_present (d : dict) (k : string) (default v : PyVal) :
  d !! k = Some v → get d k default = v.
Proof. unfold get. intros ->. reflexivity. Qed.

Lemma get_absent (d : dict) (k : string) (default : PyVal) :
  d !! k = None → get d k default = default.
Proof. unfold get. intros ->. reflexivity. Qed.

Lemma getitem_present (d : dict) (k : string) (v : PyVal) :
  d !! k = Some v → getitem d k = Return v.
Proof. unfold getitem. intros ->. reflexivity. Qed.

(** ** Condition evaluator *)

Lemma evaluate_condition_other (e : string) (vars : dict) :
  e ∉ recognised → evaluate_condition (PStr e) vars = true.
Proof.
  intros Hnot. unfold evaluate_condition.
  destruct (negb (truthy (PStr e))); [reflexivity|].
  assert (Hne : ∀ s, s ∈ recognised → py_eq (PStr e) (PStr s) = false).
  { intros s Hs. apply py_eq_PStr_false. intros [= ->]. contradiction. }
  rewrite !Hne by (unfold recognised; set_solver).
  reflexivity.
Qed.


(** C10: an empty expression and an absent one ([None]) evaluate to [True]
    in every variable context, and the resolver's own check accepts a flow
    with an empty or absent condition as well. *)
Theorem evaluate_condition_empty (vars : dict) :
  evaluate_condition (PStr "") vars = true
  ∧ evaluate_condition PNone vars = true
  ∧ inline_condition_check (flow_condition ∅) vars = true
  ∧ inline_condition_check (PStr "") vars = true
  ∧ inline_condition_check PNone vars = true.
Proof. repeat split. Qed.



(** With ["approved"] absent, the comparison with [true] reads the default
    [False] and the comparison with [false] reads the default [True]: each
    recognised expression is compared with the opposite of its literal. *)
Lemma evaluate_condition_absent (e : string) (vars : dict) :
  vars !! "approved" = None → e ∈ recognised →
  evaluate_condition (PStr e) vars = false.
Proof.
  intros Habs. unfold recognised. rewrite !elem_of_cons, elem_of_nil.
  unfold evaluate_condition.
  intros [-> | [-> | [-> | [-> | []]]]]; simpl;
    rewrite (get_absent _ _ _ Habs); reflexivity.
Qed.

(** C2, as stated, fails.  With ["approved"] absent, [approved == false]
    is not evaluated as [false == false]; and a numeric, a string or a
    [!=] comparison on an absent variable is not compared with a default of
    its literal's type: each evaluates to [True] where the comparison with
    the default ([0 == 5], [empty == pending], [false != false]) is
    false. *)
Lemma absent_variable_counterexample :
  ¬ (∀ vars : dict, vars !! "approved" = None →
       evaluate_condition (PStr "approved == false") vars = true
       ∧ evaluate_condition (PStr "${approved} == false") vars = true)
  ∧ (Grammar.is_comparison "amount == 5" = true
     ∧ evaluate_condition (PStr "amount == 5") ∅ = true
     ∧ py_eq (PInt 0) (PInt 5) = false)
  ∧ (Grammar.is_comparison "${status} == pending" = true
     ∧ evaluate_condition (PStr "${status} == pending") ∅ = true
     ∧ py_eq (PStr "") (PStr "pending") = false)
  ∧ (Grammar.is_comparison "approved != false" = true
     ∧ evaluate_condition (PStr "approved != false") ∅ = true
     ∧ negb (py_eq (PBool false) (PBool false)) = false).
Proof.
  split.
  - intros H. destruct (H ∅ (lookup_empty _)) as [H1 _].
    vm_compute in H1. discriminate.
  - vm_compute. repeat split.
Qed.

(** C2, amended: the evaluator compares a variable with a literal only in
    the four recognised comparisons of [approved] with [true] or [false],
    bare or interpolated.  When ["approved"] is absent none of them fails:
    [approved == true] is evaluated against the default [False] and
    [approved == false] against the default [True], so all four evaluate to
    [False].  Every other expression, the numeric, string and [!=]
    comparisons included, evaluates to [True] in every context, whether its
    variable is present or absent: no default is compared there. *)
Theorem evaluate_condition_absent_variable (vars : dict) :
  vars !! "approved" = None →
  get vars "approved" (PBool false) = PBool false
  ∧ get vars "approved" (PBool true) = PBool true
  ∧ evaluate_condition (PStr "approved == true") vars = false
  ∧ evaluate_condition (PStr "${approved} == true") vars = false
  ∧ evaluate_condition (PStr "approved == false") vars = false
  ∧ evaluate_condition (PStr "${approved} == false") vars = false
  ∧ (∀ (e : string) (vars' : dict),
       e ∉ ["approved == true"; "${approved} == true";
            "approved == false"; "${approved} == false"] →
       evaluate_condition (PStr e) vars' = true).
Proof.
  intros Habs.
  split; [apply get_absent; exact Habs|].
  split; [apply get_absent; exact Habs|].
  repeat split;
    try (apply evaluate_condition_absent;
         (exact Habs || (unfold recognised; set_solver))).
  intros e vars' He. apply evaluate_condition_other. exact He.
Qed.

Lemma evaluate_condition_absent_variable_witness :
  amount_only !! "approved" = None
  ∧ evaluate_condition (PStr "approved == true") amount_only = false
  ∧ evaluate_condition (PStr "approved == false") amount_only = false
  ∧ evaluate_condition (PStr "amount == 5") amount_only = true.
Proof.
  assert (Habs : amount_only !! "approved" = None) by reflexivity.
  destruct (evaluate_condition_absent_variable amount_only Habs)
    as (_ & _ & Ht & _ & Hf & _ & Hother).
  split; [exact Habs|]. split; [exact Ht|]. split; [exact Hf|].
  apply Hother. vm_compute. intros H.
  repeat (apply elem_of_cons in H as [H | H]; [discriminate|]).
  inversion H.
Defined.

(** C4 does not hold on the code: the resolver's own check and the
    evaluator disagree in both directions.  The check rejects
    [${approved} == false] with [approved = False], the bare form
    [approved == true] with [approved = True] and any unrecognised
    expression, all of which the evaluator accepts; and it accepts
    [${approved} == true] for a truthy value other than [True], which the
    evaluator rejects. *)
Theorem inline_check_differs_from_evaluator :
  (inline_condition_check (PStr "${approved} == false") (approved_is false) = false
   ∧ evaluate_condition (PStr "${approved} == false") (approved_is false) = true)
  ∧ (inline_condition_check (PStr "approved == true") (approved_is true) = false
     ∧ evaluate_condition (PStr "approved == true") (approved_is true) = true)
  ∧ (inline_condition_check (PStr "unknown_condition") (approved_is true) = false
     ∧ evaluate_condition (PStr "unknown_condition") (approved_is true) = true)
  ∧ (inline_condition_check (PStr "${approved} == true")
       (<["approved" := PStr "yes"]> ∅) = true
     ∧ evaluate_condition (PStr "${approved} == true")
         (<["approved" := PStr "yes"]> ∅) = false).
Proof. vm_compute. repeat split. Qed.

(** ** Gateway resolver *)

Lemma is_outgoing_from (id : PyVal) (flow : dict) (a : PyVal) :
  flow !! "from" = Some a → is_outgoing id flow = py_eq a id.
Proof. unfold is_outgoing. intros ->. reflexivity. Qed.

Lemma flow_target_present (flow : dict) (t : PyVal) :
  flow !! "to" = Some t → flow_target flow = t.
Proof. apply get_present. Qed.

Section Resolver.

Variables (gateway : Node) (props : dict) (id : PyVal).
Hypothesis Hprops : node_props gateway = Some props.
Hypothesis Hid : node_items gateway !! "id" = Some id.

(** The comprehension that selects the outgoing flows succeeds when
    every flow names its source. *)
Lemma outgoing_flows_filter (flows : list dict) :
  Forall (fun f => is_Some (f !! "from")) flows →
  rfilter (fun f => a ← getitem f "from";
                    b ← getitem (node_items gateway) "id";
                    Return (py_eq a b)) flows
  = Return (List.filter (is_outgoing id) flows).
Proof.
  induction 1 as [ | f flows [a Ha] _ IH]; [reflexivity|].
  cbn [rfilter List.filter]. rewrite IH, (is_outgoing_from _ _ _ Ha).
  rewrite (getitem_present _ _ _ Ha), (getitem_present _ _ _ Hid).
  cbn. destruct (py_eq a id); reflexivity.
Qed.

Lemma evaluate_gateway_dispatch (flows : list dict) (variables : dict) :
  Forall (fun f => is_Some (f !! "from")) flows →
  evaluate_gateway gateway flows variables
  = let gateway_type := get props "gatewayType" (PStr "exclusive") in
    let outgoing_flows := List.filter (is_outgoing id) flows in
    if py_eq gateway_type (PStr "exclusive") then
      exclusive_loop outgoing_flows variables
    else if py_eq gateway_type (PStr "parallel") then
      rmap (fun f => getitem f "to") outgoing_flows
    else if py_eq gateway_type (PStr "inclusive") then
      inclusive_loop outgoing_flows variables
    else Return [].
Proof.
  intros Hfrom. unfold evaluate_gateway, getprops. rewrite Hprops. cbn.
  rewrite (outgoing_flows_filter _ Hfrom). reflexivity.
Qed.

End Resolver.

Lemma rmap_targets (flows : list dict) :
  Forall (fun f => is_Some (f !! "to")) flows →
  rmap (fun f => getitem f "to") flows = Return (map flow_target flows).
Proof.
  induction 1 as [ | f flows [t Ht] _ IH]; [reflexivity|].
  cbn [rmap map].
  rewrite (getitem_present _ _ _ Ht), (flow_target_present _ _ Ht), IH.
  reflexivity.
Qed.

Lemma Forall_filter_outgoing (P : dict → Prop) (id : PyVal) (flows : list dict) :
  Forall (fun f => is_outgoing id f = true → P f) flows →
  Forall P (List.filter (is_outgoing id) flows).
Proof.
  induction 1 as [ | f flows Hf _ IH]; cbn; [constructor|].
  destruct (is_outgoing id f) eqn:E; [constructor|]; auto.
Qed.

Lemma has_key_is_Some (d : dict) (k : string) :
  has_key d k = true → is_Some (d !! k).
Proof. unfold has_key. destruct (d !! k); [eauto | discriminate]. Qed.

Lemma well_formed_from (id : PyVal) (flows : list dict) :
  well_formed id flows = true → Forall (fun f => is_Some (f !! "from")) flows.
Proof.
  unfold well_formed. rewrite forallb_forall, Forall_forall.
  intros H f Hf. apply list_elem_of_In, H in Hf.
  apply andb_prop in Hf as [Hf _]. apply has_key_is_Some, Hf.
Qed.

Lemma well_formed_to (id : PyVal) (flows : list dict) :
  well_formed id flows = true →
  Forall (fun f => is_Some (f !! "to")) (List.filter (is_outgoing id) flows).
Proof.
  intros H. apply Forall_filter_outgoing. revert H.
  unfold well_formed. rewrite forallb_forall, Forall_forall.
  intros H f Hf Hout. apply list_elem_of_In, H in Hf.
  apply andb_prop in Hf as [_ Hf]. rewrite Hout in Hf.
  apply has_key_is_Some, Hf.
Qed.

(** What the two loops compute, in terms of the check they apply. *)
Lemma inclusive_loop_filter (flows : list dict) (variables : dict) :
  Forall (fun f => is_Some (f !! "to")) flows →
  inclusive_loop flows variables
  = Return (map flow_target
              (List.filter
                 (fun f => inline_condition_check (flow_condition f) variables)
                 flows)).
Proof.
  induction 1 as [ | f flows [t Ht] _ IH]; [reflexivity|].
  cbn [inclusive_loop List.filter]. fold (flow_condition f). rewrite IH.
  destruct (inline_condition_check (flow_condition f) variables);
    [|reflexivity].
  cbn [map].
  rewrite (getitem_present _ _ _ Ht), (flow_target_present _ _ Ht). reflexivity.
Qed.

Lemma exclusive_loop_first (flows : list dict) (variables : dict) :
  Forall (fun f => is_Some (f !! "to")) flows →
  exclusive_loop flows variables
  = Return (map flow_target
              (take 1 (List.filter
                 (fun f => inline_condition_check (flow_condition f) variables)
                 flows))).
Proof.
  induction 1 as [ | f flows [t Ht] _ IH]; [reflexivity|].
  cbn [exclusive_loop List.filter]. fold (flow_condition f). rewrite IH.
  destruct (inline_condition_check (flow_condition f) variables);
    [|reflexivity].
  cbn [take map].
  rewrite (getitem_present _ _ _ Ht), (flow_target_present _ _ Ht). reflexivity.
Qed.

(** C7: a parallel gateway returns the targets of all its outgoing flows,
    in declared order, whatever conditions the flows carry and whatever the
    variables are; it returns as many targets as there are outgoing
    flows. *)
Theorem parallel_returns_all_targets
    (gateway : Node) (props : dict) (id : PyVal) (flows : list dict)
    (variables : dict) :
  node_props gateway = Some props →
  props !! "gatewayType" = Some (PStr "parallel") →
  node_items gateway !! "id" = Some id →
  well_formed id flows = true →
  let outgoing_flows := List.filter (is_outgoing id) flows in
  ∃ targets,
    evaluate_gateway gateway flows variables = Return targets
    ∧ targets = map flow_target outgoing_flows
    ∧ length targets = length outgoing_flows.
Proof.
  intros Hprops Htype Hid Hwf outgoing_flows.
  exists (map flow_target outgoing_flows).
  split; [|split; [reflexivity | apply length_map]].
  rewrite (evaluate_gateway_dispatch _ _ _ Hprops Hid)
    by (eapply well_formed_from, Hwf).
  rewrite (get_present _ _ _ _ Htype). cbn.
  apply rmap_targets, well_formed_to, Hwf.
Qed.

Lemma parallel_returns_all_targets_witness :
  ∃ targets,
    evaluate_gateway (test_gateway "parallel") test_flows (approved_is false)
    = Return targets
    ∧ targets = map flow_target (List.filter (is_outgoing (PStr "gateway1")) test_flows)
    ∧ length targets = length (List.filter (is_outgoing (PStr "gateway1")) test_flows).
Proof.
  apply (parallel_returns_all_targets (test_gateway "parallel")
           (<["gatewayType" := PStr "parallel"]> ∅) (PStr "gateway1")
           test_flows (approved_is false));
    reflexivity.
Defined.

(** C3, as stated, fails: a gateway of an unknown type makes the resolver
    return the empty list; nothing is raised. *)
Lemma unknown_gateway_type_counterexample :
  evaluate_gateway (test_gateway "complex") test_flows (approved_is true)
  = Return []
  ∧ ¬ (∃ e, evaluate_gateway (test_gateway "complex") test_flows
              (approved_is true) = Raise e).
Proof.
  assert (H : evaluate_gateway (test_gateway "complex") test_flows
                (approved_is true) = Return [])
    by (vm_compute; reflexivity).
  split; [exact H|]. intros [e He]. rewrite H in He. discriminate.
Qed.

(** C3, amended: for a gateway whose [gatewayType] is none of
    [exclusive], [parallel] and [inclusive], the resolver returns the empty
    list as a normal result, for all flows that name their source and all
    variables. *)
Theorem unknown_gateway_type_returns_empty
    (gateway : Node) (props : dict) (id gateway_type : PyVal)
    (flows : list dict) (variables : dict) :
  node_props gateway = Some props →
  props !! "gatewayType" = Some gateway_type →
  gateway_type ≠ PStr "exclusive" →
  gateway_type ≠ PStr "parallel" →
  gateway_type ≠ PStr "inclusive" →
  node_items gateway !! "id" = Some id →
  forallb (fun f => has_key f "from") flows = true →
  evaluate_gateway gateway flows variables = Return [].
Proof.
  intros Hprops Htype He Hp Hi Hid Hfrom.
  rewrite (evaluate_gateway_dispatch _ _ _ Hprops Hid).
  - rewrite (get_present _ _ _ _ Htype). cbn zeta.
    apply py_eq_PStr_false in He, Hp, Hi. rewrite He, Hp, Hi. reflexivity.
  - rewrite forallb_forall in Hfrom. apply Forall_forall.
    intros f Hf. apply has_key_is_Some, Hfrom, list_elem_of_In, Hf.
Qed.

Lemma unknown_gateway_type_returns_empty_witness :
  evaluate_gateway (test_gateway "complex") test_flows (approved_is true)
  = Return [].
Proof.
  apply (unknown_gateway_type_returns_empty (test_gateway "complex")
           (<["gatewayType" := PStr "complex"]> ∅) (PStr "gateway1")
           (PStr "complex"));
    (reflexivity || discriminate).
Defined.

(** C1 does not hold on the code.  On the flows of the script's own test
    with [approved = False] the conditions evaluate to
    [[false; true; true]], so the first eligible flow leads to
    [end_reject]; the resolver returns the target of the unconditional
    third flow, [end_default]. *)
Theorem exclusive_gateway_skips_eligible_flow :
  map (fun f => evaluate_condition (flow_condition f) (approved_is false))
      test_flows = [false; true; true]
  ∧ spec_exclusive test_flows (approved_is false) = [PStr "end_reject"]
  ∧ evaluate_gateway (test_gateway "exclusive") test_flows (approved_is false)
    = Return [PStr "end_default"].
Proof. vm_compute. repeat split. Qed.

(** C8 does not hold on the code.  On the same flows with
    [approved = False] two conditions evaluate to true, those of the flows
    to [end_reject] and [end_default]; the resolver returns [end_default]
    alone. *)
Theorem inclusive_gateway_skips_eligible_flow :
  map (fun f => evaluate_condition (flow_condition f) (approved_is false))
      test_flows = [false; true; true]
  ∧ spec_inclusive test_flows (approved_is false)
    = [PStr "end_reject"; PStr "end_default"]
  ∧ evaluate_gateway (test_gateway "inclusive") test_flows (approved_is false)
    = Return [PStr "end_default"].
Proof. vm_compute. repeat split. Qed.

(** ** Priority-based assignment *)

Section FirstMaximum.

Context {A : Type} (key : A → Z).

Lemma insert_desc_head (x : A) (l : list (A * Z)) :
  head (insert_desc (with_key key x) l)
  = match head l with
    | None => Some (with_key key x)
    | Some y => if key x <? y.2 then Some y else Some (with_key key x)
    end.
Proof.
  destruct l as [ | y l]; [reflexivity|]. cbn.
  destruct (key x <? y.2); reflexivity.
Qed.

(** The sorted list starts with the first maximum: the sort is stable. *)
Lemma sort_desc_head (l : list A) :
  head (sort_desc (map (with_key key) l)) = with_key key <$> first_max key l.
Proof.
  induction l as [ | x l IH]; [reflexivity|].
  cbn [map sort_desc foldr]. fold (sort_desc (map (with_key key) l)).
  rewrite insert_desc_head, IH. cbn [first_max].
  destruct (first_max key l) as [y|]; [|reflexivity].
  cbn. destruct (key x <? key y); reflexivity.
Qed.

Lemma first_max_nonempty (l : list A) :
  l ≠ [] → is_Some (first_max key l).
Proof.
  destruct l as [ | x l]; [congruence|]. intros _. cbn.
  destruct (first_max key l) as [y|]; [destruct (key x <? key y)|]; eauto.
Qed.

Lemma first_max_spec (l : list A) (m : A) :
  first_max key l = Some m →
  ∃ i : nat,
    l !! i = Some m
    ∧ (∀ (j : nat) (y : A), l !! j = Some y → key y ≤ key m)
    ∧ (∀ (j : nat) (y : A), (j < i)%nat → l !! j = Some y → key y < key m).
Proof.
  revert m. induction l as [ | x l IH]; intros m; [discriminate|].
  cbn [first_max]. destruct (first_max key l) as [y|] eqn:E.
  - destruct (IH y eq_refl) as (i & Hi & Hmax & Hfirst).
    destruct (Z.ltb_spec (key x) (key y)) as [Hlt | Hge]; intros [= <-].
    + exists (S i). split; [exact Hi|]. split.
      * intros [ | j] z Hz; cbn in Hz; [injection Hz as <-; lia|].
        eapply Hmax, Hz.
      * intros [ | j] z Hj Hz; cbn in Hz; [injection Hz as <-; lia|].
        eapply (Hfirst j); [lia | exact Hz].
    + exists O. split; [reflexivity|]. split.
      * intros [ | j] z Hz; cbn in Hz; [injection Hz as <-; lia|].
        specialize (Hmax j z Hz). lia.
      * intros j z Hj. lia.
  - intros [= <-]. destruct l as [ | x' l].
    + exists O. split; [reflexivity|]. split.
      * intros [ | j] z Hz; cbn in Hz; [injection Hz as <-; lia|].
        discriminate.
      * intros j z Hj. lia.
    + destruct (first_max_nonempty (x' :: l)) as [z Hz]; [discriminate|].
      congruence.
Qed.

End FirstMaximum.

(** The code's weights are the claimed ones, for every role. *)
Lemma role_weight_claimed (role : PyVal) :
  role_weight role = claimed_role_weight role.
Proof.
  destruct role as [ | b | z | r]; try reflexivity.
  unfold role_weight, claimed_role_weight, claimed_role_weights.
  destruct (String.eqb_spec r "admin") as [-> | Ha]; [reflexivity|].
  rewrite lookup_insert_ne by congruence.
  destruct (String.eqb_spec r "manager") as [-> | Hm]; [reflexivity|].
  rewrite lookup_insert_ne by congruence.
  destruct (String.eqb_spec r "user") as [-> | Hu]; [reflexivity|].
  rewrite lookup_insert_ne by congruence. reflexivity.
Qed.

Lemma role_weight_table :
  role_weight (PStr "admin") = 100
  ∧ role_weight (PStr "manager") = 80
  ∧ role_weight (PStr "user") = 60
  ∧ ∀ role, role ∉ [PStr "admin"; PStr "manager"; PStr "user"] →
            role_weight role = 40.
Proof.
  repeat split. intros role Hrole.
  destruct role as [ | b | z | r]; try reflexivity. cbn.
  repeat match goal with
         | |- context [String.eqb r ?s] =>
             destruct (String.eqb_spec r s) as [-> | _]; [set_solver|]
         end.
  reflexivity.
Qed.

(** Only the three named roles weigh 100 or 80. *)
Lemma role_weight_admin (role : PyVal) :
  100 ≤ role_weight role → role = PStr "admin".
Proof.
  destruct role as [ | b | z | r]; cbn; try lia.
  destruct (String.eqb_spec r "admin") as [-> | _]; [reflexivity|].
  destruct (String.eqb r "manager"), (String.eqb r "user"); lia.
Qed.

Lemma role_weight_manager (role : PyVal) :
  80 ≤ role_weight role → role_weight role < 100 → role = PStr "manager".
Proof.
  destruct role as [ | b | z | r]; cbn; try lia.
  destruct (String.eqb r "admin"); [lia|].
  destruct (String.eqb_spec r "manager") as [-> | _]; [reflexivity|].
  destruct (String.eqb r "user"); lia.
Qed.

Section PriorityAssignment.

Variables (task : dict) (priority : PyVal) (p : Z).
Hypothesis Hpriority : task !! "priority" = Some priority.
Hypothesis Hnumber : as_int priority = Some p.

Lemma calculate_score_formula (user : dict) :
  has_key user "role" = true →
  calculate_score user task = Return (spec_score p (user_role user)).
Proof.
  intros [role Hrole]%has_key_is_Some.
  unfold calculate_score, user_role, spec_score.
  rewrite (getitem_present _ _ _ Hrole), (get_present _ _ _ _ Hrole).
  rewrite (getitem_present _ _ _ Hpriority). cbn [mbind result_bind].
  unfold py_ge_int. rewrite Hnumber. cbn [mbind result_bind].
  destruct (80 <=? p); f_equal; lia.
Qed.

Lemma scored_users_formula (users : list dict) :
  forallb (fun u => has_key u "role") users = true →
  rmap (fun user => s ← calculate_score user task; Return (user, s)) users
  = Return (map (with_key (fun u => spec_score p (user_role u))) users).
Proof.
  induction users as [ | u users IH]; [reflexivity|].
  cbn [forallb]. intros [Hu Hrest]%andb_prop.
  cbn [rmap map]. rewrite (IH Hrest), (calculate_score_formula u Hu).
  reflexivity.
Qed.

Lemma priority_assignment_first_max (users : list dict) :
  forallb (fun u => has_key u "role") users = true →
  priority_assignment task users
  = Return (first_max (fun u => spec_score p (user_role u)) users).
Proof.
  intros Hroles. destruct users as [ | u0 users]; [reflexivity|].
  unfold priority_assignment. rewrite (scored_users_formula _ Hroles).
  set (key := fun u => spec_score p (user_role u)).
  pose proof (sort_desc_head key (u0 :: users)) as Hhead.
  destruct (first_max_nonempty key (u0 :: users)) as [m Hm]; [discriminate|].
  rewrite Hm in Hhead. cbn [mbind result_bind].
  destruct (sort_desc (map (with_key key) (u0 :: users))) as [ | [u s] l];
    cbn in Hhead; [discriminate|].
  injection Hhead as -> _. rewrite Hm. reflexivity.
Qed.

End PriorityAssignment.

(** C5: for a task with a numeric priority and a non-empty list of
    candidates that each have a role, every candidate is scored
    [roleWeight(role) + (30 if priority >= 80 else 0)] with the weights
    [{admin: 100, manager: 80, user: 60}] and 40 for any other role, and
    the candidate returned has the highest score, the earliest in the list
    among those with that score.  Hence whenever some candidate is an admin the one
    returned is an admin, and when none is an admin and some candidate is a
    manager the one returned is a manager, wherever they stand in the
    list. *)
Theorem priority_assignment_highest_score
    (task : dict) (priority : PyVal) (p : Z) (users : list dict) :
  task !! "priority" = Some priority →
  as_int priority = Some p →
  forallb (fun u => has_key u "role") users = true →
  users ≠ [] →
  let score := fun u => claimed_score p (user_role u) in
  ∃ (i : nat) (u : dict),
    users !! i = Some u
    ∧ priority_assignment task users = Return (Some u)
    ∧ (∀ v, v ∈ users → calculate_score v task = Return (score v))
    ∧ (∀ (j : nat) v, users !! j = Some v → score v ≤ score u)
    ∧ (∀ (j : nat) v, (j < i)%nat → users !! j = Some v → score v < score u)
    ∧ ((∃ v, v ∈ users ∧ user_role v = PStr "admin") →
       user_role u = PStr "admin")
    ∧ ((∃ v, v ∈ users ∧ user_role v = PStr "manager") →
       (∀ v, v ∈ users → user_role v ≠ PStr "admin") →
       user_role u = PStr "manager")
    ∧ (role_weight (PStr "admin") = 100
       ∧ role_weight (PStr "manager") = 80
       ∧ role_weight (PStr "user") = 60
       ∧ ∀ role, role ∉ [PStr "admin"; PStr "manager"; PStr "user"] →
                 role_weight role = 40).
Proof.
  intros Hpriority Hnumber Hroles Hne score0.
  set (score := fun u => spec_score p (user_role u)).
  assert (Hscore : ∀ v, score0 v = score v).
  { intros v. unfold score0, score, claimed_score, spec_score.
    rewrite role_weight_claimed. reflexivity. }
  cut (∃ (i : nat) (u : dict),
         users !! i = Some u
         ∧ priority_assignment task users = Return (Some u)
         ∧ (∀ v, v ∈ users → calculate_score v task = Return (score v))
         ∧ (∀ (j : nat) v, users !! j = Some v → score v ≤ score u)
         ∧ (∀ (j : nat) v, (j < i)%nat → users !! j = Some v →
                           score v < score u)
         ∧ ((∃ v, v ∈ users ∧ user_role v = PStr "admin") →
            user_role u = PStr "admin")
         ∧ ((∃ v, v ∈ users ∧ user_role v = PStr "manager") →
            (∀ v, v ∈ users → user_role v ≠ PStr "admin") →
            user_role u = PStr "manager")).
  { intros (i & u & Hi & Hres & Hcalc & Hmax & Hfirst & Hadmin & Hmanager).
    exists i, u. split; [exact Hi|]. split; [exact Hres|]. split.
    { intros v Hv. rewrite Hscore. apply Hcalc, Hv. }
    split.
    { intros j v Hv. rewrite !Hscore. eapply Hmax, Hv. }
    split.
    { intros j v Hj Hv. rewrite !Hscore. eapply Hfirst; [exact Hj | exact Hv]. }
    split; [exact Hadmin|]. split; [exact Hmanager|].
    exact role_weight_table. }
  destruct (first_max_nonempty score users Hne) as [u Hu].
  destruct (first_max_spec score users u Hu) as (i & Hi & Hmax & Hfirst).
  assert (Hin : ∀ v, v ∈ users → score v ≤ score u).
  { intros v [j Hj]%list_elem_of_lookup. eapply Hmax, Hj. }
  assert (Hweight : ∀ v, v ∈ users →
            role_weight (user_role v) ≤ role_weight (user_role u)).
  { intros v Hv. specialize (Hin v Hv). unfold score, spec_score in Hin. lia. }
  exists i, u. split; [exact Hi|]. split.
  { rewrite (priority_assignment_first_max _ _ _ Hpriority Hnumber _ Hroles).
    fold score. rewrite Hu. reflexivity. }
  split.
  { intros v Hv. apply (calculate_score_formula _ _ _ Hpriority Hnumber).
    rewrite forallb_forall in Hroles. apply Hroles, list_elem_of_In, Hv. }
  split; [exact Hmax|]. split; [exact Hfirst|]. split.
  - intros (v & Hv & Hadmin). apply role_weight_admin.
    specialize (Hweight v Hv). rewrite Hadmin in Hweight. exact Hweight.
  - intros (v & Hv & Hmanager) Hnoadmin. apply role_weight_manager.
    + specialize (Hweight v Hv). rewrite Hmanager in Hweight. exact Hweight.
    + destruct (Z.lt_ge_cases (role_weight (user_role u)) 100) as [Hlt | Hge];
        [exact Hlt|].
      apply role_weight_admin in Hge. exfalso.
      apply (Hnoadmin u); [|exact Hge].
      apply list_elem_of_lookup. exists i. exact Hi.
Qed.

Lemma priority_assignment_highest_score_witness :
  ∃ u : dict,
    priority_assignment test_task test_users = Return (Some u)
    ∧ user_role u = PStr "admin".
Proof.
  destruct (priority_assignment_highest_score test_task (PInt 80) 80 test_users)
    as (i & u & _ & Hres & _ & _ & _ & Hadmin & _);
    [reflexivity | reflexivity | reflexivity | discriminate |].
  exists u. split; [exact Hres|]. apply Hadmin.
  exists (mk_user 3 "admin1" "admin"). split; [|reflexivity].
  unfold test_users. set_solver.
Defined.

(** ** Round-robin assignment *)

Lemma div_step (t m : Z) :
  0 < m → t `div` m = (t - 1) `div` m + (if t `mod` m =? 0 then 1 else 0).
Proof.
  intros Hm.
  pose proof (Z.div_mod t m ltac:(lia)) as Ht.
  pose proof (Z.mod_pos_bound t m Hm) as Hs.
  destruct (Z.eqb_spec (t `mod` m) 0) as [E | E].
  - assert (H : t `div` m - 1 = (t - 1) `div` m).
    { apply (Z.div_unique _ _ _ (m - 1)); lia. }
    lia.
  - assert (H : t `div` m = (t - 1) `div` m).
    { apply (Z.div_unique _ _ _ (t `mod` m - 1)); lia. }
    lia.
Qed.

(** Call [n] hands out index [i] exactly when [n - 1] is congruent to the
    offset of [i] from the starting index. *)
Lemma hit_iff (c m i n : Z) :
  0 < m → 0 ≤ i < m →
  ((c + n) `mod` m =? i) = ((n - 1 - (i - c - 1) `mod` m + m) `mod` m =? 0).
Proof.
  intros Hm Hi.
  pose proof (Z.div_mod (i - c - 1) m ltac:(lia)) as Hr.
  set (r := (i - c - 1) `mod` m) in *. set (q := (i - c - 1) `div` m) in *.
  assert (E1 : (n - 1 - r + m) `mod` m = (c + n - i) `mod` m).
  { replace (n - 1 - r + m) with ((c + n - i) + (q + 1) * m) by lia.
    apply Z.mod_add. lia. }
  rewrite E1.
  destruct (Z.eqb_spec ((c + n) `mod` m) i) as [E | E];
    destruct (Z.eqb_spec ((c + n - i) `mod` m) 0) as [E' | E'];
    try reflexivity; exfalso.
  - apply E'. rewrite Zminus_mod, E, (Z.mod_small i m) by lia.
    rewrite Z.sub_diag. apply Z.mod_0_l. lia.
  - apply E. replace (c + n) with ((c + n - i) + i) by lia.
    rewrite Zplus_mod, E', Z.add_0_l, Z.mod_mod by lia.
    apply Z.mod_small. lia.
Qed.

(** The closed form of [hits]. *)
Lemma hits_closed_form (c m i : Z) (n : nat) :
  0 < m → 0 ≤ i < m →
  hits c m i n = (Z.of_nat n + m - 1 - (i - c - 1) `mod` m) `div` m.
Proof.
  intros Hm Hi. pose proof (Z.mod_pos_bound (i - c - 1) m Hm) as Hr.
  unfold hits, rotation. induction n as [ | n IH].
  - cbn. symmetry. apply Z.div_small. lia.
  - rewrite seq_S, List.filter_app, length_app, Nat2Z.inj_add, IH.
    cbn [List.filter plus]. rewrite (hit_iff c m i _ Hm Hi).
    rewrite (div_step (Z.of_nat (S n) + m - 1 - (i - c - 1) `mod` m) m Hm).
    replace (Z.of_nat (S n) + m - 1 - (i - c - 1) `mod` m - 1)
      with (Z.of_nat n + m - 1 - (i - c - 1) `mod` m) by lia.
    replace (Z.of_nat (S n) + m - 1 - (i - c - 1) `mod` m)
      with (Z.of_nat (S n) - 1 - (i - c - 1) `mod` m + m) by lia.
    destruct (_ =? 0); reflexivity.
Qed.

(** Each index is handed out [⌊n/m⌋] or [⌈n/m⌉] times. *)
Lemma hits_floor_or_ceil (c m i : Z) (n : nat) :
  0 < m → 0 ≤ i < m →
  hits c m i n = Z.of_nat n `div` m
  ∨ hits c m i n = (Z.of_nat n + m - 1) `div` m.
Proof.
  intros Hm Hi. rewrite (hits_closed_form c m i n Hm Hi).
  pose proof (Z.mod_pos_bound (i - c - 1) m Hm) as Hr.
  set (r := (i - c - 1) `mod` m) in *.
  assert (H1 : Z.of_nat n `div` m ≤ (Z.of_nat n + m - 1 - r) `div` m)
    by (apply Z.div_le_mono; lia).
  assert (H2 : (Z.of_nat n + m - 1 - r) `div` m ≤ (Z.of_nat n + m - 1) `div` m)
    by (apply Z.div_le_mono; lia).
  assert (H3 : (Z.of_nat n + m - 1) `div` m ≤ Z.of_nat n `div` m + 1).
  { replace (Z.of_nat n `div` m + 1) with ((Z.of_nat n + 1 * m) `div` m)
      by (rewrite Z.div_add by lia; reflexivity).
    apply Z.div_le_mono; lia. }
  lia.
Qed.

Lemma py_index_in_range {A : Type} (xs : list A) (i : Z) :
  0 ≤ i < Z.of_nat (length xs) →
  (x ← py_index xs i; Return (Some x)) = Return (xs !! Z.to_nat i).
Proof.
  intros Hi. unfold py_index.
  destruct (Z.ltb_spec i 0) as [? | _]; [lia|].
  destruct (Z.leb_spec 0 i) as [_ | ?]; [|lia].
  destruct (Z.ltb_spec i (Z.of_nat (length xs))) as [_ | ?]; [|lia].
  cbn [andb]. destruct (lookup_lt_is_Some_2 xs (Z.to_nat i)) as [x Hx]; [lia|].
  rewrite Hx. reflexivity.
Qed.

Section RoundRobin.

Import RoundRobinAssignment.

Variables (task : dict) (users : list dict) (node_key : string).
Hypothesis Hne : users ≠ [].

Let m : Z := Z.of_nat (length users).

Lemma candidates_positive : 0 < m.
Proof. subst m. destruct users; [congruence | cbn; lia]. Qed.

(** One call: the stored index moves one step round the candidates and
    the candidate at the new index is returned. *)
Lemma assign_step (last_index : state) :
  let c := default (-1) (last_index !! node_key) in
  assign task users node_key last_index
  = (Return (users !! Z.to_nat (rotation c m 1)),
     <[node_key := rotation c m 1]> last_index).
Proof.
  intros c. pose proof candidates_positive as Hm. subst m.
  unfold assign, rotation. change (Z.of_nat 1) with 1. fold c.
  destruct users as [ | u0 us]; [congruence|].
  rewrite py_index_in_range; [reflexivity|].
  apply Z.mod_pos_bound, Hm.
Qed.

Lemma rotation_next (c : Z) (k : nat) :
  rotation (rotation c m 1) m k = rotation c m (S k).
Proof.
  unfold rotation. rewrite Zplus_mod_idemp_l. f_equal. lia.
Qed.

(** [n] calls: the indices handed out and the index stored at the end. *)
Lemma assign_n_rotation (n : nat) (last_index : state) :
  let c := default (-1) (last_index !! node_key) in
  assign_n n task users node_key last_index
  = (map (fun k => Return (users !! Z.to_nat (rotation c m k))) (seq 1 n),
     match n with
     | O => last_index
     | S _ => <[node_key := rotation c m n]> last_index
     end).
Proof.
  revert last_index. induction n as [ | n IH]; intros last_index c;
    [reflexivity|].
  cbn [assign_n]. rewrite assign_step. fold c. rewrite IH.
  rewrite lookup_insert_eq. cbn [default from_option id].
  f_equal.
  - cbn [seq map]. f_equal. rewrite <- (seq_shift n 1), List.map_map.
    apply List.map_ext. intros k. rewrite rotation_next. reflexivity.
  - destruct n as [ | n]; [reflexivity|].
    rewrite insert_insert_eq, rotation_next. reflexivity.
Qed.

(** With distinct candidates, the calls that return candidate number [i]
    are the calls that hand out index [i]. *)
Lemma returned_hits (u : dict) (i : nat) (c : Z) (n : nat) :
  NoDup users → users !! i = Some u →
  Z.of_nat (length (List.filter (returned u)
              (map (fun k => Return (users !! Z.to_nat (rotation c m k)))
                   (seq 1 n))))
  = hits c m (Z.of_nat i) n.
Proof.
  intros Hnodup Hi. pose proof candidates_positive as Hm.
  unfold hits. rewrite List.filter_map_swap, length_map. do 2 f_equal.
  apply List.filter_ext. intros k. unfold compose, returned.
  assert (Hk : 0 ≤ rotation c m k < m) by (apply Z.mod_pos_bound, Hm).
  destruct (lookup_lt_is_Some_2 users (Z.to_nat (rotation c m k)))
    as [v Hv]; [subst m; lia|].
  rewrite Hv. destruct (Z.eqb_spec (rotation c m k) (Z.of_nat i)) as [E | E].
  - rewrite E, Nat2Z.id, Hi in Hv. injection Hv as ->.
    apply bool_decide_eq_true_2. reflexivity.
  - apply bool_decide_eq_false_2. intros ->. apply E.
    rewrite <- (NoDup_lookup _ _ _ _ Hnodup Hv Hi). lia.
Qed.

End RoundRobin.

(** C6: on a fixed list of [M] distinct candidates, [N > M] calls of
    [assign] with the same node key return each candidate [⌊N/M⌋] or
    [⌈N/M⌉] times.  Every call moves the index stored for the key one step
    forward modulo [M] and returns the candidate at the new index; the
    index is kept between the calls and the entries of other keys are left
    alone. *)
Theorem round_robin_cycles
    (task : dict) (users : list dict) (node_key : string)
    (last_index : RoundRobinAssignment.state) (N : nat) (u : dict) :
  NoDup users → u ∈ users → (length users < N)%nat →
  let M := Z.of_nat (length users) in
  let c := default (-1) (last_index !! node_key) in
  let run := RoundRobinAssignment.assign_n N task users node_key last_index in
  let times := Z.of_nat (length (List.filter (returned u) run.1)) in
  (times = Z.of_nat N `div` M ∨ times = (Z.of_nat N + M - 1) `div` M)
  ∧ run.1 = map (fun k => Return (users !! Z.to_nat (rotation c M k))) (seq 1 N)
  ∧ Forall (fun r => ∃ v, v ∈ users ∧ r = Return (Some v)) run.1
  ∧ run.2 !! node_key = Some (rotation c M N)
  ∧ (∀ key, key ≠ node_key → run.2 !! key = last_index !! key)
  ∧ RoundRobinAssignment.assign task users node_key last_index
    = (Return (users !! Z.to_nat ((c + 1) `mod` M)),
       <[node_key := (c + 1) `mod` M]> last_index).
Proof.
  intros Hnodup Hu HN M c run times.
  assert (Hne : users ≠ []) by (intros ->; inversion Hu).
  pose proof (candidates_positive users Hne) as HM. cbv zeta in HM.
  subst M. set (M := Z.of_nat (length users)) in *.
  destruct (proj1 (list_elem_of_lookup _ _) Hu) as [i Hi].
  assert (Hrun : run = (map (fun k => Return (users !! Z.to_nat (rotation c M k)))
                          (seq 1 N),
                        match N with
                        | O => last_index
                        | S _ => <[node_key := rotation c M N]> last_index
                        end))
    by apply (assign_n_rotation task users node_key Hne N last_index).
  split.
  { unfold times. rewrite Hrun. cbn [fst].
    pose proof (returned_hits users Hne u i c N Hnodup Hi) as Hhits.
    cbv zeta in Hhits. fold M in Hhits. rewrite Hhits.
    apply hits_floor_or_ceil; [exact HM|].
    apply lookup_lt_Some in Hi. subst M. lia. }
  split; [rewrite Hrun; reflexivity|]. split.
  { rewrite Hrun. cbn [fst]. apply Forall_forall.
    intros r [k [<- _]]%list_elem_of_In%in_map_iff.
    destruct (lookup_lt_is_Some_2 users (Z.to_nat (rotation c M k)))
      as [v Hv].
    - pose proof (Z.mod_pos_bound (c + Z.of_nat k) M HM) as Hk.
      unfold rotation. subst M. lia.
    - exists v. rewrite Hv. split; [|reflexivity].
      apply list_elem_of_lookup. eauto. }
  split.
  { rewrite Hrun. cbn [snd]. destruct N as [ | N]; [lia|].
    apply lookup_insert_eq. }
  split.
  { intros key Hkey. rewrite Hrun. cbn [snd].
    destruct N as [ | N]; [reflexivity|].
    apply lookup_insert_ne. congruence. }
  apply (assign_step task users node_key Hne last_index).
Qed.

Lemma round_robin_cycles_witness :
  Z.of_nat
    (length
       (List.filter (returned (mk_user 1 "user1" "user"))
          (RoundRobinAssignment.assign_n 4 test_task test_users "default"
             RoundRobinAssignment.init).1))
  = 1
  ∨ Z.of_nat
      (length
         (List.filter (returned (mk_user 1 "user1" "user"))
            (RoundRobinAssignment.assign_n 4 test_task test_users "default"
               RoundRobinAssignment.init).1))
    = 2.
Proof.
  assert (Hnodup : NoDup test_users)
    by (apply (bool_decide_unpack _); vm_compute; reflexivity).
  assert (Hin : mk_user 1 "user1" "user" ∈ test_users)
    by apply list_elem_of_here.
  assert (Hlen : (length test_users < 4)%nat) by (cbn; lia).
  pose proof (round_robin_cycles test_task test_users "default"
                RoundRobinAssignment.init 4 (mk_user 1 "user1" "user")
                Hnodup Hin Hlen) as H.
  cbv zeta in H. destruct H as [[H | H] _]; [left | right]; exact H.
Defined.

(** * Further properties of the engine logic *)

(** ** Condition evaluator *)

Lemma get_same (d d' : dict) (k : string) (default : PyVal) :
  d !! k = d' !! k → get d k default = get d' k default.
Proof. unfold get. intros ->. reflexivity. Qed.

(** The evaluator reads no variable but ["approved"]: two contexts that
    agree on it give every condition the same value. *)
Theorem evaluate_condition_reads_only_approved
    (condition : PyVal) (vars vars' : dict) :
  vars !! "approved" = vars' !! "approved" →
  evaluate_condition condition vars = evaluate_condition condition vars'.
Proof.
  intros H. unfold evaluate_condition.
  rewrite (get_same vars vars' _ (PBool false) H).
  rewrite (get_same vars vars' _ (PBool true) H). reflexivity.
Qed.

Lemma evaluate_condition_reads_only_approved_witness :
  evaluate_condition (PStr "approved == true") test_variables
  = evaluate_condition (PStr "approved == true") (approved_is true).
Proof.
  apply (evaluate_condition_reads_only_approved
           (PStr "approved == true") test_variables (approved_is true)).
  reflexivity.
Defined.

Lemma py_eq_true_iff (v : PyVal) :
  py_eq v (PBool true) = true ↔ as_int v = Some 1.
Proof.
  destruct v as [ | [ | ] | z | s]; unfold py_eq; cbn; try (split; congruence).
  rewrite Z.eqb_eq. split; congruence.
Qed.

Lemma py_eq_false_iff (v : PyVal) :
  py_eq v (PBool false) = true ↔ as_int v = Some 0.
Proof.
  destruct v as [ | [ | ] | z | s]; unfold py_eq; cbn; try (split; congruence).
  rewrite Z.eqb_eq. split; congruence.
Qed.

Lemma approved_true_iff (e : string) (vars : dict) :
  e ∈ ["approved == true"; "${approved} == true"] →
  evaluate_condition (PStr e) vars = true
  ↔ ∃ v, vars !! "approved" = Some v ∧ as_int v = Some 1.
Proof.
  rewrite !elem_of_cons, elem_of_nil. unfold evaluate_condition, get.
  intros [-> | [-> | []]]; cbn; rewrite py_eq_true_iff;
    (destruct (vars !! "approved") as [v|]; cbn;
     [split; [eauto | intros (? & [= <-] & ?); assumption]
     |split; [discriminate | intros (? & ? & ?); discriminate]]).
Qed.

Lemma approved_false_iff (e : string) (vars : dict) :
  e ∈ ["approved == false"; "${approved} == false"] →
  evaluate_condition (PStr e) vars = true
  ↔ ∃ v, vars !! "approved" = Some v ∧ as_int v = Some 0.
Proof.
  rewrite !elem_of_cons, elem_of_nil. unfold evaluate_condition, get.
  intros [-> | [-> | []]]; cbn; rewrite py_eq_false_iff;
    (destruct (vars !! "approved") as [v|]; cbn;
     [split; [eauto | intros (? & [= <-] & ?); assumption]
     |split; [discriminate | intros (? & ? & ?); discriminate]]).
Qed.

(** What the recognised comparisons test: a comparison with [true] holds
    exactly when ["approved"] is bound to a value equal to 1 ([True] or the
    integer 1), a comparison with [false] exactly when it is bound to a
    value equal to 0; the bare and the interpolated form decide alike. *)
Theorem recognised_comparisons_decide (e : string) (vars : dict) :
  e ∈ recognised →
  evaluate_condition (PStr e) vars = true
  ↔ ∃ v, vars !! "approved" = Some v
         ∧ as_int v = Some (if bool_decide
                                 (e ∈ ["approved == true"; "${approved} == true"])
                            then 1 else 0).
Proof.
  unfold recognised. rewrite !elem_of_cons, elem_of_nil.
  intros [-> | [-> | [-> | [-> | []]]]];
    (rewrite bool_decide_eq_true_2 by set_solver; apply approved_true_iff;
     set_solver)
    || (rewrite bool_decide_eq_false_2 by (vm_compute; intros H;
          repeat (apply elem_of_cons in H as [H | H]; [discriminate|]);
          inversion H);
        apply approved_false_iff; set_solver).
Qed.

Lemma recognised_comparisons_decide_witness :
  evaluate_condition (PStr "${approved} == true")
    (<["approved" := PInt 1]> ∅) = true.
Proof.
  apply (recognised_comparisons_decide "${approved} == true"
           (<["approved" := PInt 1]> ∅)).
  - unfold recognised. set_solver.
  - exists (PInt 1). split; reflexivity.
Defined.

(** No context satisfies a comparison with [true] and a comparison with
    [false] at once. *)
Theorem approved_comparisons_exclusive (vars : dict) (t f : string) :
  t ∈ ["approved == true"; "${approved} == true"] →
  f ∈ ["approved == false"; "${approved} == false"] →
  evaluate_condition (PStr t) vars && evaluate_condition (PStr f) vars = false.
Proof.
  intros Ht Hf. apply andb_false_iff.
  destruct (evaluate_condition (PStr t) vars) eqn:Et; [|left; reflexivity].
  right. apply (approved_true_iff t vars Ht) in Et as (v & Hv & H1).
  destruct (evaluate_condition (PStr f) vars) eqn:Ef; [|reflexivity].
  apply (approved_false_iff f vars Hf) in Ef as (v' & Hv' & H0).
  congruence.
Qed.

Lemma approved_comparisons_exclusive_witness :
  evaluate_condition (PStr "approved == true") (approved_is true)
  && evaluate_condition (PStr "${approved} == false") (approved_is true)
  = false.
Proof.
  apply (approved_comparisons_exclusive (approved_is true)
           "approved == true" "${approved} == false"); set_solver.
Defined.

(** ** Gateway resolver *)

(** When ["approved"] is absent or a boolean, a condition the resolver's
    own check accepts is accepted by the evaluator as well, and on the two
    condition texts the check knows, the empty one and
    [${approved} == true], check and evaluator agree. *)
Theorem inline_check_sound_on_booleans (condition : PyVal) (vars : dict) :
  vars !! "approved" = None ∨ (∃ b, vars !! "approved" = Some (PBool b)) →
  (inline_condition_check condition vars = true →
   evaluate_condition condition vars = true)
  ∧ (condition = PStr "" ∨ condition = PStr "${approved} == true" →
     inline_condition_check condition vars = evaluate_condition condition vars).
Proof.
  intros Hvars.
  assert (Hsame : truthy (get vars "approved" PNone)
                  = py_eq (get vars "approved" (PBool false)) (PBool true)).
  { unfold get. destruct Hvars as [-> | [[ | ] ->]]; reflexivity. }
  split.
  - unfold inline_condition_check, evaluate_condition.
    destruct (negb (truthy condition)); [reflexivity|]. cbn [orb].
    intros [Hc Ht]%andb_prop. apply py_eq_PStr in Hc as ->.
    cbn. rewrite <- Hsame. exact Ht.
  - intros [-> | ->]; [reflexivity|].
    unfold inline_condition_check, evaluate_condition. cbn.
    exact Hsame.
Qed.

Lemma inline_check_sound_on_booleans_witness :
  inline_condition_check (PStr "${approved} == true") (approved_is true)
  = evaluate_condition (PStr "${approved} == true") (approved_is true).
Proof.
  apply (inline_check_sound_on_booleans (PStr "${approved} == true")
           (approved_is true)).
  - right. exists true. reflexivity.
  - right. reflexivity.
Defined.

Lemma getitem_absent (d : dict) (k : string) :
  d !! k = None → getitem d k = Raise (KeyError k).
Proof. unfold getitem. intros ->. reflexivity. Qed.

Lemma rfilter_missing_source (gateway : Node) (id : PyVal) (flows : list dict) :
  node_items gateway !! "id" = Some id →
  Exists (fun f => f !! "from" = None) flows →
  rfilter (fun f => a ← getitem f "from";
                    b ← getitem (node_items gateway) "id";
                    Return (py_eq a b)) flows
  = Raise (KeyError "from").
Proof.
  intros Hid. induction flows as [ | f flows IH]; intros Hex;
    [inversion Hex|].
  cbn [rfilter]. destruct (f !! "from") as [a|] eqn:Ea.
  - rewrite IH.
    + rewrite (getitem_present _ _ _ Ea), (getitem_present _ _ _ Hid).
      reflexivity.
    + inversion Hex as [? ? Hf | ? ? Hrest]; subst;
        [congruence | exact Hrest].
  - rewrite (getitem_absent _ _ Ea). reflexivity.
Qed.

(** A flow without a ["from"] entry makes the resolver raise [KeyError],
    whatever the gateway type is, known or not: the outgoing flows are
    selected before the type is looked at. *)
Theorem evaluate_gateway_missing_source
    (gateway : Node) (props : dict) (id : PyVal) (flows : list dict)
    (variables : dict) :
  node_props gateway = Some props →
  node_items gateway !! "id" = Some id →
  Exists (fun f => f !! "from" = None) flows →
  evaluate_gateway gateway flows variables = Raise (KeyError "from").
Proof.
  intros Hprops Hid Hex. unfold evaluate_gateway, getprops.
  rewrite Hprops. cbn [mbind result_bind].
  rewrite (rfilter_missing_source gateway id flows Hid Hex). reflexivity.
Qed.

Lemma evaluate_gateway_missing_source_witness :
  evaluate_gateway (test_gateway "complex")
    [mk_flow "gateway1" "end_success" ""; <["to" := PStr "end_default"]> ∅]
    (approved_is true)
  = Raise (KeyError "from").
Proof.
  apply (evaluate_gateway_missing_source (test_gateway "complex")
           (<["gatewayType" := PStr "complex"]> ∅) (PStr "gateway1"));
    [reflexivity | reflexivity |].
  apply Exists_cons_tl, Exists_cons_hd. reflexivity.
Defined.

(** A gateway whose props carry no ["gatewayType"] is resolved as an
    exclusive gateway. *)
Theorem evaluate_gateway_default_type
    (gateway : Node) (props : dict) (flows : list dict) (variables : dict) :
  node_props gateway = Some props →
  props !! "gatewayType" = None →
  evaluate_gateway gateway flows variables
  = evaluate_gateway
      (mkNode (node_items gateway)
              (Some (<["gatewayType" := PStr "exclusive"]> props)))
      flows variables.
Proof.
  intros Hprops Hnone. unfold evaluate_gateway, getprops.
  rewrite Hprops. cbn [node_props node_items mbind result_bind].
  rewrite (get_absent _ _ _ Hnone).
  rewrite (get_present _ _ (PStr "exclusive") (PStr "exclusive")
             (lookup_insert_eq props "gatewayType" (PStr "exclusive"))).
  reflexivity.
Qed.

Lemma evaluate_gateway_default_type_witness :
  evaluate_gateway
    (mkNode (<["id" := PStr "gateway1"]> ∅) (Some ∅))
    test_flows (approved_is false)
  = Return [PStr "end_default"].
Proof.
  rewrite (evaluate_gateway_default_type
             (mkNode (<["id" := PStr "gateway1"]> ∅) (Some ∅)) ∅
             test_flows (approved_is false) eq_refl (lookup_empty _)).
  vm_compute. reflexivity.
Defined.

Lemma exclusive_loop_at_most_one (flows : list dict) (variables : dict)
    (targets : list PyVal) :
  exclusive_loop flows variables = Return targets → (length targets ≤ 1)%nat.
Proof.
  induction flows as [ | f flows IH]; cbn [exclusive_loop].
  - intros [= <-]. cbn. lia.
  - destruct (inline_condition_check _ _); [|exact IH].
    destruct (getitem f "to") as [t | e]; cbn; [|discriminate].
    intros [= <-]. cbn. lia.
Qed.

(** An exclusive gateway never yields more than one target, on any flows
    and in any context, also when the type is left to its default. *)
Theorem exclusive_at_most_one_target
    (gateway : Node) (props : dict) (flows : list dict) (variables : dict)
    (targets : list PyVal) :
  node_props gateway = Some props →
  get props "gatewayType" (PStr "exclusive") = PStr "exclusive" →
  evaluate_gateway gateway flows variables = Return targets →
  (length targets ≤ 1)%nat.
Proof.
  intros Hprops Htype. unfold evaluate_gateway, getprops.
  rewrite Hprops. cbn [mbind result_bind]. rewrite Htype.
  destruct (rfilter _ flows) as [outgoing | e]; cbn; [|discriminate].
  apply exclusive_loop_at_most_one.
Qed.

Lemma exclusive_at_most_one_target_witness :
  (length [PStr "end_success"] ≤ 1)%nat.
Proof.
  apply (exclusive_at_most_one_target (test_gateway "exclusive")
           (<["gatewayType" := PStr "exclusive"]> ∅) test_flows
           (approved_is true) [PStr "end_success"]);
    [reflexivity | reflexivity | vm_compute; reflexivity].
Defined.

Lemma sublist_map_filter {A B : Type} (f : A → B) (p : A → bool) (l : list A) :
  map f (List.filter p l) `sublist_of` map f l.
Proof.
  induction l as [ | x l IH]; cbn; [constructor|].
  destruct (p x); cbn; [apply sublist_skip | apply sublist_cons]; exact IH.
Qed.

(** On the same well-formed flows and in the same context, the three
    gateway types nest: the inclusive result is a sublist of the parallel
    result, and the exclusive result is the inclusive result cut after its
    first target. *)
Theorem gateway_types_nest
    (items props : dict) (id : PyVal) (flows : list dict) (variables : dict) :
  items !! "id" = Some id →
  well_formed id flows = true →
  ∃ all some : list PyVal,
    evaluate_gateway
      (mkNode items (Some (<["gatewayType" := PStr "parallel"]> props)))
      flows variables = Return all
    ∧ evaluate_gateway
        (mkNode items (Some (<["gatewayType" := PStr "inclusive"]> props)))
        flows variables = Return some
    ∧ evaluate_gateway
        (mkNode items (Some (<["gatewayType" := PStr "exclusive"]> props)))
        flows variables = Return (take 1 some)
    ∧ some `sublist_of` all.
Proof.
  intros Hid Hwf.
  pose proof (well_formed_from id flows Hwf) as Hfrom.
  pose proof (well_formed_to id flows Hwf) as Hto.
  set (outgoing := List.filter (is_outgoing id) flows) in *.
  set (eligible := fun f => inline_condition_check (flow_condition f) variables).
  exists (map flow_target outgoing),
         (map flow_target (List.filter eligible outgoing)).
  assert (Hdispatch : ∀ t : string,
    evaluate_gateway (mkNode items (Some (<["gatewayType" := PStr t]> props)))
      flows variables
    = if py_eq (PStr t) (PStr "exclusive") then
        exclusive_loop outgoing variables
      else if py_eq (PStr t) (PStr "parallel") then
        rmap (fun f => getitem f "to") outgoing
      else if py_eq (PStr t) (PStr "inclusive") then
        inclusive_loop outgoing variables
      else Return []).
  { intros t.
    rewrite (evaluate_gateway_dispatch
               (mkNode items (Some (<["gatewayType" := PStr t]> props)))
               (<["gatewayType" := PStr t]> props)
               id eq_refl Hid flows variables Hfrom).
    rewrite (get_present _ _ (PStr "exclusive") (PStr t)
               (lookup_insert_eq props "gatewayType" (PStr t))).
    reflexivity. }
  rewrite !Hdispatch. cbn [py_eq as_int String.eqb Ascii.eqb Bool.eqb].
  split; [apply rmap_targets, Hto|].
  split; [apply inclusive_loop_filter, Hto|].
  split; [|apply sublist_map_filter].
  rewrite (exclusive_loop_first _ _ Hto). fold eligible.
  rewrite List.firstn_map. reflexivity.
Qed.

Lemma gateway_types_nest_witness :
  ∃ all some : list PyVal,
    evaluate_gateway (test_gateway "parallel") test_flows (approved_is true)
    = Return all
    ∧ evaluate_gateway (test_gateway "inclusive") test_flows (approved_is true)
      = Return some
    ∧ evaluate_gateway (test_gateway "exclusive") test_flows (approved_is true)
      = Return (take 1 some)
    ∧ some `sublist_of` all.
Proof.
  apply (gateway_types_nest
           (<["id" := PStr "gateway1"]> (<["type" := PStr "gateway"]> ∅)) ∅
           (PStr "gateway1") test_flows (approved_is true));
    reflexivity.
Defined.

Lemma filter_outgoing_idem (id : PyVal) (flows : list dict) :
  List.filter (is_outgoing id) (List.filter (is_outgoing id) flows)
  = List.filter (is_outgoing id) flows.
Proof.
  induction flows as [ | f flows IH]; [reflexivity|]. cbn [List.filter].
  destruct (is_outgoing id f) eqn:E; [|exact IH].
  cbn [List.filter]. rewrite E, IH. reflexivity.
Qed.

(** Flows that leave other nodes have no influence: the resolver gives the
    same answer on all the flows of the definition as on the gateway's own
    outgoing flows. *)
Theorem evaluate_gateway_ignores_foreign_flows
    (gateway : Node) (props : dict) (id : PyVal) (flows : list dict)
    (variables : dict) :
  node_props gateway = Some props →
  node_items gateway !! "id" = Some id →
  forallb (fun f => has_key f "from") flows = true →
  evaluate_gateway gateway flows variables
  = evaluate_gateway gateway (List.filter (is_outgoing id) flows) variables.
Proof.
  intros Hprops Hid Hfrom.
  assert (Hall : Forall (fun f => is_Some (f !! "from")) flows).
  { rewrite forallb_forall in Hfrom. apply Forall_forall.
    intros f Hf. apply has_key_is_Some, Hfrom, list_elem_of_In, Hf. }
  rewrite (evaluate_gateway_dispatch _ _ _ Hprops Hid flows variables Hall).
  rewrite (evaluate_gateway_dispatch _ _ _ Hprops Hid
             (List.filter (is_outgoing id) flows) variables).
  - rewrite filter_outgoing_idem. reflexivity.
  - apply Forall_filter_outgoing. eapply Forall_impl; [exact Hall|]. auto.
Qed.

Lemma evaluate_gateway_ignores_foreign_flows_witness :
  evaluate_gateway (test_gateway "parallel")
    (mk_flow "task1" "gateway1" "" :: test_flows) (approved_is true)
  = evaluate_gateway (test_gateway "parallel")
      (List.filter (is_outgoing (PStr "gateway1"))
         (mk_flow "task1" "gateway1" "" :: test_flows))
      (approved_is true).
Proof.
  apply (evaluate_gateway_ignores_foreign_flows (test_gateway "parallel")
           (<["gatewayType" := PStr "parallel"]> ∅) (PStr "gateway1"));
    reflexivity.
Defined.

Lemma inline_condition_check_same (condition : PyVal) (vars vars' : dict) :
  vars !! "approved" = vars' !! "approved" →
  inline_condition_check condition vars = inline_condition_check condition vars'.
Proof.
  intros H. unfold inline_condition_check.
  rewrite (get_same vars vars' _ PNone H). reflexivity.
Qed.

(** The resolver reads no variable but ["approved"]: two contexts that
    agree on it lead to the same result, an exception included. *)
Theorem evaluate_gateway_reads_only_approved
    (gateway : Node) (flows : list dict) (vars vars' : dict) :
  vars !! "approved" = vars' !! "approved" →
  evaluate_gateway gateway flows vars = evaluate_gateway gateway flows vars'.
Proof.
  intros H.
  assert (Hex : ∀ l, exclusive_loop l vars = exclusive_loop l vars').
  { induction l as [ | f l IH]; [reflexivity|]. cbn [exclusive_loop].
    rewrite (inline_condition_check_same _ vars vars' H), IH. reflexivity. }
  assert (Hin : ∀ l, inclusive_loop l vars = inclusive_loop l vars').
  { induction l as [ | f l IH]; [reflexivity|]. cbn [inclusive_loop].
    rewrite (inline_condition_check_same _ vars vars' H), IH. reflexivity. }
  unfold evaluate_gateway. destruct (getprops gateway) as [props | e];
    [|reflexivity].
  cbn [mbind result_bind]. destruct (rfilter _ flows) as [outgoing | e];
    [|reflexivity].
  cbn [mbind result_bind]. rewrite Hex, Hin. reflexivity.
Qed.

Lemma evaluate_gateway_reads_only_approved_witness :
  evaluate_gateway (test_gateway "inclusive") test_flows test_variables
  = evaluate_gateway (test_gateway "inclusive") test_flows (approved_is true).
Proof.
  apply (evaluate_gateway_reads_only_approved (test_gateway "inclusive")
           test_flows test_variables (approved_is true)).
  reflexivity.
Defined.

(** ** Task assignment strategies *)

(** With no candidates every strategy answers [None] and raises nothing,
    not even for a task without a priority; round-robin leaves its stored
    indices untouched. *)
Theorem empty_candidates_unassigned
    (task : dict) (node_key : string) (last_index : RoundRobinAssignment.state) :
  direct_assignment task [] = None
  ∧ priority_assignment task [] = Return None
  ∧ load_balancing_assignment task [] = Return None
  ∧ RoundRobinAssignment.assign task [] node_key last_index
    = (Return None, last_index).
Proof. repeat split. Qed.

Lemma first_max_same_order {A : Type} (key key' : A → Z) (l : list A) :
  (∀ x y, (key x <? key y) = (key' x <? key' y)) →
  first_max key l = first_max key' l.
Proof.
  intros H. induction l as [ | x l IH]; [reflexivity|].
  cbn [first_max]. rewrite IH. destruct (first_max key' l) as [y|];
    [rewrite H|]; reflexivity.
Qed.

(** The priority of the task has no influence on who is chosen: the bonus
    for a high priority is added to every candidate alike. *)
Theorem priority_assignment_ignores_priority
    (task task' : dict) (priority priority' : PyVal) (p p' : Z)
    (users : list dict) :
  task !! "priority" = Some priority → as_int priority = Some p →
  task' !! "priority" = Some priority' → as_int priority' = Some p' →
  forallb (fun u => has_key u "role") users = true →
  priority_assignment task users = priority_assignment task' users.
Proof.
  intros Hp Hn Hp' Hn' Hroles.
  rewrite (priority_assignment_first_max _ _ _ Hp Hn _ Hroles).
  rewrite (priority_assignment_first_max _ _ _ Hp' Hn' _ Hroles).
  f_equal. apply first_max_same_order. intros x y. unfold spec_score.
  destruct (Z.ltb_spec (role_weight (user_role x) + (if 80 <=? p then 30 else 0))
              (role_weight (user_role y) + (if 80 <=? p then 30 else 0)));
    destruct (Z.ltb_spec
                (role_weight (user_role x) + (if 80 <=? p' then 30 else 0))
                (role_weight (user_role y) + (if 80 <=? p' then 30 else 0)));
    try reflexivity; lia.
Qed.

Lemma priority_assignment_ignores_priority_witness :
  priority_assignment test_task test_users
  = priority_assignment (<["priority" := PInt 10]> ∅) test_users.
Proof.
  apply (priority_assignment_ignores_priority test_task
           (<["priority" := PInt 10]> ∅) (PInt 80) (PInt 10) 80 10 test_users);
    reflexivity.
Defined.

Lemma scored_users_missing_role (task : dict) (priority : PyVal) (p : Z)
    (users : list dict) :
  task !! "priority" = Some priority → as_int priority = Some p →
  Exists (fun u => u !! "role" = None) users →
  rmap (fun user => s ← calculate_score user task; Return (user, s)) users
  = Raise (KeyError "role").
Proof.
  intros Hp Hn. induction users as [ | u users IH]; intros Hex;
    [inversion Hex|].
  cbn [rmap]. destruct (u !! "role") as [role|] eqn:Er.
  - rewrite IH.
    + rewrite (calculate_score_formula task priority p Hp Hn u);
        [reflexivity|].
      unfold has_key. rewrite Er. reflexivity.
    + inversion Hex as [? ? Hu | ? ? Hrest]; subst;
        [congruence | exact Hrest].
  - unfold calculate_score. rewrite (getitem_absent _ _ Er). reflexivity.
Qed.

(** A candidate without a ["role"] makes priority-based assignment raise
    [KeyError], wherever the candidate stands in the list and whatever the
    roles of the others are: every candidate is scored before one is
    chosen. *)
Theorem priority_assignment_missing_role
    (task : dict) (priority : PyVal) (p : Z) (users : list dict) :
  task !! "priority" = Some priority → as_int priority = Some p →
  Exists (fun u => u !! "role" = None) users →
  priority_assignment task users = Raise (KeyError "role").
Proof.
  intros Hp Hn Hex. unfold priority_assignment.
  destruct users as [ | u0 users]; [inversion Hex|].
  rewrite (scored_users_missing_role task priority p _ Hp Hn Hex).
  reflexivity.
Qed.

Lemma priority_assignment_missing_role_witness :
  priority_assignment test_task (test_users ++ [∅]) = Raise (KeyError "role").
Proof.
  apply (priority_assignment_missing_role test_task (PInt 80) 80
           (test_users ++ [∅])); [reflexivity | reflexivity |].
  apply Exists_app. right. apply Exists_cons_hd. reflexivity.
Defined.

(** A task whose priority is missing, or is not a number, makes
    priority-based assignment raise as soon as there is a candidate to
    score: [KeyError] for a missing priority, [TypeError] for [None] or a
    string. *)
Theorem priority_assignment_bad_priority
    (task user : dict) (users : list dict) :
  has_key user "role" = true →
  (task !! "priority" = None →
   priority_assignment task (user :: users) = Raise (KeyError "priority"))
  ∧ (∀ priority, task !! "priority" = Some priority →
       as_int priority = None →
       priority_assignment task (user :: users) = Raise TypeError).
Proof.
  intros [role Hrole]%has_key_is_Some. split.
  - intros Hnone. unfold priority_assignment. cbn [rmap].
    unfold calculate_score.
    rewrite (getitem_present _ _ _ Hrole), (getitem_absent _ _ Hnone).
    reflexivity.
  - intros priority Hp Hn. unfold priority_assignment. cbn [rmap].
    unfold calculate_score.
    rewrite (getitem_present _ _ _ Hrole), (getitem_present _ _ _ Hp).
    cbn [mbind result_bind]. unfold py_ge_int. rewrite Hn. reflexivity.
Qed.

Lemma priority_assignment_bad_priority_witness :
  priority_assignment (<["priority" := PStr "high"]> ∅) test_users
  = Raise TypeError.
Proof.
  apply (proj2 (priority_assignment_bad_priority
                  (<["priority" := PStr "high"]> ∅)
                  (mk_user 1 "user1" "user")
                  [mk_user 2 "user2" "manager"; mk_user 3 "admin1" "admin"]
                  eq_refl) (PStr "high")); reflexivity.
Defined.

Lemma min_loop_first_min {A : Type} (key : A → Z) (rest : list A) (x : A) :
  ∃ (i : nat) (y : A),
    (x :: rest) !! i = Some y
    ∧ min_loop (with_key key x) (map (with_key key) rest) = y
    ∧ (∀ (j : nat) z, (x :: rest) !! j = Some z → key y ≤ key z)
    ∧ (∀ (j : nat) z, (j < i)%nat → (x :: rest) !! j = Some z → key y < key z).
Proof.
  revert x. induction rest as [ | r rest IH]; intros x.
  - exists O, x. split; [reflexivity|]. split; [reflexivity|]. split.
    + intros [ | j] z Hz; cbn in Hz; [injection Hz as <-; lia | discriminate].
    + intros j z Hj. lia.
  - cbn [map min_loop with_key snd].
    destruct (Z.ltb_spec (key r) (key x)) as [Hlt | Hge].
    + destruct (IH r) as (i & y & Hi & Hmin & Hall & Hfirst).
      pose proof (Hall O r eq_refl) as Hyr.
      exists (S i), y. split; [exact Hi|]. split; [exact Hmin|]. split.
      * intros [ | j] z Hz; cbn in Hz; [injection Hz as <-; lia|].
        eapply Hall, Hz.
      * intros [ | j] z Hj Hz; cbn in Hz; [injection Hz as <-; lia|].
        eapply (Hfirst j); [lia | exact Hz].
    + destruct (IH x) as (i & y & Hi & Hmin & Hall & Hfirst).
      destruct i as [ | i].
      * cbn in Hi. injection Hi as <-.
        exists O, x. split; [reflexivity|]. split; [exact Hmin|]. split.
        -- intros [ | [ | j]] z Hz; cbn in Hz.
           ++ injection Hz as <-. lia.
           ++ injection Hz as <-. lia.
           ++ apply (Hall (S j) z). exact Hz.
        -- intros j z Hj. lia.
      * pose proof (Hfirst O x ltac:(lia) eq_refl) as Hyx.
        exists (S (S i)), y. split; [exact Hi|]. split; [exact Hmin|]. split.
        -- intros [ | [ | j]] z Hz; cbn in Hz.
           ++ injection Hz as <-. lia.
           ++ injection Hz as <-. lia.
           ++ apply (Hall (S j) z). exact Hz.
        -- intros [ | [ | j]] z Hj Hz; cbn in Hz.
           ++ injection Hz as <-. lia.
           ++ injection Hz as <-. lia.
           ++ apply (Hfirst (S j) z); [lia | exact Hz].
Qed.

Lemma load_key_formula (user : dict) :
  has_key user "id" = true → load_key user = Return (with_key user_load user).
Proof.
  intros [id Hid]%has_key_is_Some. unfold load_key, with_key, user_load.
  rewrite (getitem_present _ _ _ Hid), (get_present _ _ _ _ Hid). reflexivity.
Qed.

Lemma load_keys_formula (users : list dict) :
  forallb (fun u => has_key u "id") users = true →
  rmap load_key users = Return (map (with_key user_load) users).
Proof.
  induction users as [ | u users IH]; [reflexivity|].
  cbn [forallb]. intros [Hu Hrest]%andb_prop.
  cbn [rmap map]. rewrite (IH Hrest), (load_key_formula u Hu). reflexivity.
Qed.

(** Load-balancing assignment returns a candidate with the fewest open
    tasks, the earliest in the list among those; the load of a candidate is
    looked up by its id and is 0 for an id the table does not know. *)
Theorem load_balancing_least_loaded (task : dict) (users : list dict) :
  users ≠ [] →
  forallb (fun u => has_key u "id") users = true →
  ∃ (i : nat) (u : dict),
    users !! i = Some u
    ∧ load_balancing_assignment task users = Return (Some u)
    ∧ (∀ (j : nat) v, users !! j = Some v → user_load u ≤ user_load v)
    ∧ (∀ (j : nat) v, (j < i)%nat → users !! j = Some v →
                      user_load u < user_load v)
    ∧ (∀ id, as_int id ∉ [Some 1; Some 2; Some 3] → load_of id = 0).
Proof.
  intros Hne Hids. destruct users as [ | u0 users]; [congruence|].
  cbn [forallb] in Hids. apply andb_prop in Hids as [H0 Hrest].
  destruct (min_loop_first_min user_load users u0)
    as (i & u & Hi & Hmin & Hall & Hfirst).
  exists i, u. split; [exact Hi|]. split.
  { unfold load_balancing_assignment.
    rewrite (load_key_formula u0 H0), (load_keys_formula users Hrest).
    cbn [mbind result_bind]. rewrite Hmin. reflexivity. }
  split; [exact Hall|]. split; [exact Hfirst|].
  intros id Hid. unfold load_of. destruct (as_int id) as [z|]; [|reflexivity].
  destruct (decide (z = 1)) as [-> | ?]; [set_solver|].
  destruct (decide (z = 2)) as [-> | ?]; [set_solver|].
  destruct (decide (z = 3)) as [-> | ?]; [set_solver|].
  unfold user_loads. rewrite !lookup_insert_ne by congruence.
  rewrite lookup_empty. reflexivity.
Qed.

Lemma load_balancing_least_loaded_witness :
  ∃ u : dict,
    load_balancing_assignment test_task test_users = Return (Some u)
    ∧ (∀ (j : nat) v, test_users !! j = Some v → user_load u ≤ user_load v).
Proof.
  destruct (load_balancing_least_loaded test_task test_users)
    as (i & u & _ & Hres & Hall & _); [discriminate | reflexivity |].
  exists u. split; [exact Hres | exact Hall].
Defined.

(** Round-robin assignment on a non-empty list never raises, whatever
    index is stored for the key (even one left by a longer list): it
    returns a candidate of the list and stores an index within the list;
    the first call for a key returns the first candidate. *)
Theorem round_robin_always_in_bounds
    (task : dict) (users : list dict) (node_key : string)
    (last_index : RoundRobinAssignment.state) :
  users ≠ [] →
  ∃ (i : Z) (u : dict),
    RoundRobinAssignment.assign task users node_key last_index
    = (Return (Some u), <[node_key := i]> last_index)
    ∧ 0 ≤ i < Z.of_nat (length users)
    ∧ users !! Z.to_nat i = Some u
    ∧ (last_index !! node_key = None → i = 0).
Proof.
  intros Hne.
  pose proof (candidates_positive users Hne) as Hm. cbv zeta in Hm.
  pose proof (assign_step task users node_key Hne last_index) as Hstep.
  cbv zeta in Hstep.
  set (c := default (-1) (last_index !! node_key)) in *.
  set (m := Z.of_nat (length users)) in *.
  assert (Hi : 0 ≤ rotation c m 1 < m) by (apply Z.mod_pos_bound, Hm).
  destruct (lookup_lt_is_Some_2 users (Z.to_nat (rotation c m 1)))
    as [u Hu]; [subst m; lia|].
  exists (rotation c m 1), u. rewrite Hstep, Hu.
  split; [reflexivity|]. split; [exact Hi|]. split; [reflexivity|].
  intros Hnone. subst c. rewrite Hnone. unfold rotation. cbn.
  apply Z.mod_0_l. lia.
Qed.

Lemma round_robin_always_in_bounds_witness :
  ∃ (i : Z) (u : dict),
    RoundRobinAssignment.assign test_task test_users "default"
      (<["default" := 7]> ∅)
    = (Return (Some u), <["default" := i]> (<["default" := 7]> ∅))
    ∧ 0 ≤ i < Z.of_nat (length test_users)
    ∧ test_users !! Z.to_nat i = Some u
    ∧ ((<["default" := 7]> ∅ : RoundRobinAssignment.state) !! "default" = None
       → i = 0).
Proof.
  apply (round_robin_always_in_bounds test_task test_users "default"
           (<["default" := 7]> ∅)).
  discriminate.
Defined.

(** Calls for different node keys do not interfere: made in either order
    they return the same candidates and leave the same stored indices. *)
Theorem round_robin_keys_independent
    (task1 task2 : dict) (users1 users2 : list dict) (key1 key2 : string)
    (last_index : RoundRobinAssignment.state) :
  key1 ≠ key2 →
  let first1 := RoundRobinAssignment.assign task1 users1 key1 last_index in
  let then2 := RoundRobinAssignment.assign task2 users2 key2 first1.2 in
  let first2 := RoundRobinAssignment.assign task2 users2 key2 last_index in
  let then1 := RoundRobinAssignment.assign task1 users1 key1 first2.2 in
  first1.1 = then1.1 ∧ then2.1 = first2.1 ∧ then2.2 = then1.2.
Proof.
  intros Hkeys first1 then2 first2 then1.
  subst first1 then2 first2 then1. unfold RoundRobinAssignment.assign.
  destruct users1 as [ | u1 us1], users2 as [ | u2 us2]; cbn [fst snd];
    rewrite ?lookup_insert_ne by congruence;
    repeat split; try reflexivity.
  apply insert_insert_ne. congruence.
Qed.

Lemma round_robin_keys_independent_witness :
  (RoundRobinAssignment.assign test_task test_users "b"
     (RoundRobinAssignment.assign test_task test_users "a" ∅).2).2
  = (RoundRobinAssignment.assign test_task test_users "a"
       (RoundRobinAssignment.assign test_task test_users "b" ∅).2).2.
Proof.
  apply (round_robin_keys_independent test_task test_task test_users
           test_users "a" "b" ∅).
  discriminate.
Defined.

(** One full round: as many calls as there are distinct candidates return
    every candidate exactly once, from any stored state, and bring the
    stored index back to where it stood (modulo the number of
    candidates). *)
Theorem round_robin_full_round
    (task : dict) (users : list dict) (node_key : string)
    (last_index : RoundRobinAssignment.state) (u : dict) :
  NoDup users → u ∈ users →
  let M := Z.of_nat (length users) in
  let c := default (-1) (last_index !! node_key) in
  let run := RoundRobinAssignment.assign_n (length users) task users node_key
               last_index in
  Z.of_nat (length (List.filter (returned u) run.1)) = 1
  ∧ run.2 !! node_key = Some (c `mod` M).
Proof.
  intros Hnodup Hu M c run.
  assert (Hne : users ≠ []) by (intros ->; inversion Hu).
  pose proof (candidates_positive users Hne) as HM. cbv zeta in HM.
  fold M in HM.
  destruct (proj1 (list_elem_of_lookup _ _) Hu) as [i Hi].
  pose proof (assign_n_rotation task users node_key Hne (length users)
                last_index) as Hrun.
  cbv zeta in Hrun. fold M c run in Hrun. rewrite Hrun. cbn [fst snd].
  split.
  - pose proof (returned_hits users Hne u i c (length users) Hnodup Hi)
      as Hhits.
    cbv zeta in Hhits. fold M in Hhits. rewrite Hhits.
    assert (Hrange : 0 ≤ Z.of_nat i < M)
      by (apply lookup_lt_Some in Hi; subst M; lia).
    destruct (hits_floor_or_ceil c M (Z.of_nat i) (length users) HM Hrange)
      as [-> | ->]; fold M.
    + apply Z.div_same. lia.
    + replace (M + M - 1) with ((M - 1) + 1 * M) by lia.
      rewrite Z.div_add, Z.div_small by lia. reflexivity.
  - destruct (length users) as [ | n] eqn:En; [subst M; lia|].
    rewrite lookup_insert_eq. f_equal. unfold rotation. fold M.
    replace (c + M) with (c + 1 * M) by lia. apply Z.mod_add. lia.
Qed.

Lemma round_robin_full_round_witness :
  Z.of_nat
    (length
       (List.filter (returned (mk_user 2 "user2" "manager"))
          (RoundRobinAssignment.assign_n (length test_users) test_task
             test_users "default" (<["default" := 1]> ∅)).1))
  = 1.
Proof.
  assert (Hnodup : NoDup test_users)
    by (apply (bool_decide_unpack _); vm_compute; reflexivity).
  assert (Hin : mk_user 2 "user2" "manager" ∈ test_users)
    by (apply list_elem_of_further, list_elem_of_here).
  pose proof (round_robin_full_round test_task test_users "default"
                (<["default" := 1]> ∅) (mk_user 2 "user2" "manager")
                Hnodup Hin) as H.
  cbv zeta in H. exact (proj1 H).
Defined.

(** ** Execution path tracking *)

(** Tracking is append-only and keeps the order of the calls: the path
    after the loop is the path before it followed by the entries of the
    sequence, so the nodes read off the path are the execution sequence and
    the timestamps are the clock readings in the order they were taken. *)
Theorem track_sequence_appends {T : Type}
    (execution_sequence execution_path : list (PyVal * T)) :
  track_sequence execution_sequence execution_path
  = (execution_path ++ execution_sequence)%list
  ∧ map fst (track_sequence execution_sequence [])
    = map fst execution_sequence
  ∧ map snd (track_sequence execution_sequence [])
    = map snd execution_sequence.
Proof.
  assert (H : ∀ seq path : list (PyVal * T),
            track_sequence seq path = (path ++ seq)%list).
  { induction seq as [ | [node_id now] seq IH]; intros path; cbn.
    - symmetry. apply app_nil_r.
    - rewrite IH. unfold add_to_path. rewrite <- app_assoc. reflexivity. }
  rewrite !H. repeat split.
Qed.

(** ** The test runner *)

Lemma filter_length_all {A : Type} (p : A → bool) (l : list A) :
  Nat.eqb (length (List.filter p l)) (length l) = forallb p l.
Proof.
  induction l as [ | x l IH]; [reflexivity|]. cbn [List.filter forallb].
  pose proof (List.filter_length_le p l) as Hle.
  destruct (p x); cbn [andb length].
  - exact IH.
  - apply Nat.eqb_neq. lia.
Qed.

Lemma run_tests_count (tests : list (string * TestMethod)) (n : nat)
    (test_results : list TestResult) :
  (run_tests tests n test_results).1
  = (n + length (List.filter passed_verdict (verdicts tests test_results)))%nat.
Proof.
  revert n test_results.
  induction tests as [ | [name test_func] tests IH]; intros n test_results;
    cbn [run_tests verdicts].
  - cbn. lia.
  - destruct (test_func test_results) as [[[ | ] | e] test_results'];
      rewrite IH; cbn [List.filter passed_verdict length]; lia.
Qed.

Lemma verdicts_length (tests : list (string * TestMethod))
    (test_results : list TestResult) :
  length (verdicts tests test_results) = length tests.
Proof.
  revert test_results.
  induction tests as [ | [name test_func] tests IH]; intros test_results;
    cbn [verdicts]; [reflexivity|].
  destruct (test_func test_results) as [v test_results']. cbn.
  rewrite IH. reflexivity.
Qed.

Lemma run_tests_log (tests : list (string * TestMethod)) (n : nat)
    (test_results : list TestResult) :
  (run_tests tests n test_results).2 = final_log tests test_results.
Proof.
  revert n test_results.
  induction tests as [ | [name test_func] tests IH]; intros n test_results;
    [reflexivity|].
  cbn [run_tests]. unfold final_log. cbn [foldl snd].
  destruct (test_func test_results) as [[[ | ] | e] test_results'];
    cbn [snd]; apply IH.
Qed.

(** [run_all_tests] answers [True] exactly when every test method returned
    [True]: a method that returned [False] and a method that raised both
    make the run fail.  A method that raises does not stop the run: the
    log at the end is the one left by all the methods run in turn, each
    one, after a failed or raising predecessor too, on the log its
    predecessors left. *)
Theorem run_all_tests_all_passed (tests : list (string * TestMethod))
    (test_results : list TestResult) :
  (run_all_tests tests test_results).1
  = forallb passed_verdict (verdicts tests test_results)
  ∧ (run_all_tests tests test_results).2 = final_log tests test_results
  ∧ length (verdicts tests test_results) = length tests.
Proof.
  unfold run_all_tests.
  pose proof (run_tests_count tests 0 test_results) as Hcount.
  pose proof (run_tests_log tests 0 test_results) as Hlog.
  destruct (run_tests tests 0 test_results) as [passed_count test_results'].
  cbn [fst snd] in *. split; [|split; [exact Hlog | apply verdicts_length]].
  rewrite Hcount, Nat.add_0_l.
  rewrite <- (verdicts_length tests test_results).
  apply filter_length_all.
Qed.

(** Logging one result adds one entry to the log and counts it as passed
    exactly when it passed; the number of passed entries never exceeds the
    number of entries, so the pass rate of the summary is at most 100%. *)
Theorem log_test_counts (test_name : string) (passed : bool) (details : string)
    (test_results : list TestResult) :
  length (log_test test_name passed details test_results)
  = S (length test_results)
  ∧ passed_tests (log_test test_name passed details test_results)
    = (passed_tests test_results + (if passed then 1 else 0))%nat
  ∧ (passed_tests test_results ≤ length test_results)%nat.
Proof.
  unfold log_test, passed_tests. split; [|split].
  - rewrite length_app. cbn. lia.
  - rewrite List.filter_app, length_app. cbn. destruct passed; reflexivity.
  - apply List.filter_length_le.
Qed.

(** ** Response assertions *)

Lemma check_fields_passed (d : dict) (fields : list string) :
  BaseAPITest.check_fields d fields = BaseAPITest.Passed
  ↔ forallb (has_key d) fields = true.
Proof.
  induction fields as [ | f fields IH]; cbn; [tauto|].
  destruct (has_key d f); cbn; [exact IH|]. split; discriminate.
Qed.

Lemma check_fields_missing (d : dict) (fields : list string) (f : string) :
  BaseAPITest.check_fields d fields
  = BaseAPITest.AssertionError (BaseAPITest.MissingField f) →
  f ∈ fields ∧ has_key d f = false.
Proof.
  induction fields as [ | g fields IH]; cbn; [discriminate|].
  destruct (has_key d g) eqn:E.
  - intros H. destruct (IH H) as [Hin Hf]. split; [|exact Hf].
    apply list_elem_of_further, Hin.
  - intros [= <-]. split; [apply list_elem_of_here | exact E].
Qed.

(** [assert_valid_response] with a list of expected fields passes exactly
    on a dictionary that has every expected field as a key; when it fails
    for a missing field, the field it names is an expected one that the
    dictionary lacks; a value that is no dictionary always fails. *)
Theorem assert_valid_response_passes
    (r : BaseAPITest.response) (fields : list string) :
  (BaseAPITest.assert_valid_response r (Some fields) = BaseAPITest.Passed
   ↔ ∃ d, r = BaseAPITest.RDict d ∧ forallb (has_key d) fields = true)
  ∧ (∀ f, BaseAPITest.assert_valid_response r (Some fields)
          = BaseAPITest.AssertionError (BaseAPITest.MissingField f) →
          ∃ d, r = BaseAPITest.RDict d ∧ f ∈ fields ∧ has_key d f = false)
  ∧ (∀ v, BaseAPITest.assert_valid_response (BaseAPITest.ROther v) (Some fields)
          = BaseAPITest.AssertionError BaseAPITest.NotADict).
Proof.
  split; [|split].
  - destruct r as [d | v]; cbn.
    + rewrite check_fields_passed. split.
      * intros H. exists d. split; [reflexivity | exact H].
      * intros (d' & [= <-] & H). exact H.
    + split; [discriminate | intros (d & Hd & _); discriminate].
  - intros f. destruct r as [d | v]; cbn; [|discriminate].
    intros H. exists d. split; [reflexivity|].
    apply check_fields_missing, H.
  - reflexivity.
Qed.

(** With an expected error code, [assert_error_response] passes on a
    dictionary exactly when the code it reads, ["code"] if that is present
    and truthy and ["error"] otherwise, equals the expected one; a truthy
    ["code"] that differs fails the assertion even when ["error"] matches. *)
Theorem assert_error_response_expected_code
    (d : dict) (expected_error_code : PyVal) :
  truthy expected_error_code = true →
  (BaseAPITest.assert_error_response (BaseAPITest.RDict d) expected_error_code
   = BaseAPITest.Passed
   ↔ py_eq (BaseAPITest.py_or (get d "code" PNone) (get d "error" PNone))
       expected_error_code = true)
  ∧ (∀ code, d !! "code" = Some code → truthy code = true →
       py_eq code expected_error_code = false →
       BaseAPITest.assert_error_response (BaseAPITest.RDict d)
         expected_error_code
       = BaseAPITest.AssertionError
           (BaseAPITest.WrongCode expected_error_code code)).
Proof.
  intros Hexp. split.
  - unfold BaseAPITest.assert_error_response. rewrite Hexp.
    unfold has_key, get, BaseAPITest.py_or.
    destruct (d !! "error") as [e|], (d !! "code") as [c|]; cbn [orb];
      try (destruct (py_eq _ expected_error_code) eqn:E;
           split; congruence).
    cbn. split; [discriminate|].
    destruct expected_error_code; cbn in *; congruence.
  - intros code Hcode Htruthy Hneq.
    unfold BaseAPITest.assert_error_response, has_key. rewrite Hcode, Hexp.
    rewrite orb_true_r. unfold BaseAPITest.py_or.
    rewrite (get_present _ _ _ _ Hcode), Htruthy, Hneq. reflexivity.
Qed.

Lemma assert_error_response_expected_code_witness :
  BaseAPITest.assert_error_response
    (BaseAPITest.RDict (<["code" := PStr "E404"]>
                          (<["error" := PStr "E500"]> ∅)))
    (PStr "E500")
  = BaseAPITest.AssertionError
      (BaseAPITest.WrongCode (PStr "E500") (PStr "E404")).
Proof.
  apply (proj2 (assert_error_response_expected_code
                  (<["code" := PStr "E404"]> (<["error" := PStr "E500"]> ∅))
                  (PStr "E500") eq_refl) (PStr "E404"));
    reflexivity.
Defined.
